(** * Verification of the range-check popup of storista (src/storage/popup.js)

    The click handler of the "check" button reads three text fields
    (password, start, end), parses start and end with [parseInt], scans
    [for (let i = start; i <= end; i++)] comparing [i.toString()] with the
    password, and writes a message and a color into the result element.

    JavaScript numbers are IEEE-754 binary64 values.  Every number the
    handler computes with is produced by [parseInt] or by [i++] from such a
    value, so it is NaN, an infinity, or an integer-valued double.  The
    type [js_number] below has exactly these three shapes; [Integral z]
    stands for the double whose value is the integer [z] (both zeros are
    [Integral 0]: [-0] and [+0] behave alike in every operation the
    handler performs), and its values are only built by [round_int], the
    rounding of an exact integer to binary64 (round to nearest, ties to
    even, overflow to an infinity). *)

From Stdlib Require Import ZArith Ascii String List Bool Lia.
Import ListNotations.
Open Scope string_scope.
Open Scope Z_scope.

(** ** JavaScript numbers handled by the popup *)

Inductive js_number : Type :=
| NaN
| Infinity (neg : bool)
| Integral (z : Z).

Definition num_eqb (x y : js_number) : bool :=
  match x, y with
  | NaN, NaN => true
  | Infinity a, Infinity b => Bool.eqb a b
  | Integral a, Integral b => Z.eqb a b
  | _, _ => false
  end.

Definition is_nan (x : js_number) : bool :=
  match x with NaN => true | _ => false end.

(** 𝔽(z): the binary64 value nearest to the integer [z] (53-bit
    significand, ties to even, magnitude at least 2^1024 after rounding
    gives an infinity).  Below 2^53 every integer is exact. *)
Definition round_int (z : Z) : js_number :=
  let a := Z.abs z in
  if a <? 2 ^ 53 then Integral z
  else
    let sh := Z.log2 a - 52 in
    let q := a / 2 ^ sh in
    let r := a mod 2 ^ sh in
    let half := 2 ^ (sh - 1) in
    let q' := if (half <? r) || ((r =? half) && Z.odd q) then q + 1 else q in
    let v := q' * 2 ^ sh in
    if 2 ^ 1024 <=? v then Infinity (z <? 0) else Integral (Z.sgn z * v).

(** [x <= y] (Abstract Relational Comparison; false when NaN is involved). *)
Definition js_le (x y : js_number) : bool :=
  match x, y with
  | NaN, _ | _, NaN => false
  | Infinity true, _ => true
  | _, Infinity false => true
  | Infinity false, _ => false
  | _, Infinity true => false
  | Integral a, Integral b => a <=? b
  end.

(** [i++]: [i + 1] computed exactly and rounded. *)
Definition js_incr (x : js_number) : js_number :=
  match x with
  | Integral z => round_int (z + 1)
  | other => other
  end.

(** ** Decimal digits *)

(** Little-endian decimal digits of a non-negative integer. *)
Fixpoint digits_le (fuel : nat) (z : Z) : list Z :=
  match fuel with
  | O => []
  | S f => if z <? 10 then [z] else (z mod 10) :: digits_le f (z / 10)
  end.

Definition digits_of (z : Z) : list Z :=
  digits_le (S (Z.to_nat (Z.log2 z))) z.

Definition digit_char (d : Z) : ascii := ascii_of_nat (48 + Z.to_nat d).

(** Big-endian digit list to string. *)
Definition string_of_digits (ds : list Z) : string :=
  string_of_list_ascii (map digit_char ds).

(** The decimal representation of an integer, optional minus sign then
    digits without leading zeros. *)
Definition Z_to_dec (z : Z) : string :=
  if z <? 0 then String "-" (string_of_digits (rev (digits_of (- z))))
  else string_of_digits (rev (digits_of z)).

(** ** Number::toString (ECMAScript 6.1.6.1.20, radix 10)

    For a positive integral value [z] with [nd] digits: the least [k]
    (equivalently the greatest exponent [e = nd - k]) such that some
    [s * 10^e] with [k] digits rounds back to [z]; among the two
    neighbours [s0 = z / 10^e] and [s0 + 1] the closer one, the even one on
    a tie.  A candidate equal to [10^nd] is written [1 * 10^nd]. *)
Definition closer (z e s0 : Z) : Z :=
  let d0 := z - s0 * 10 ^ e in
  let d1 := (s0 + 1) * 10 ^ e - z in
  if d0 <? d1 then s0 else if d1 <? d0 then s0 + 1
  else if Z.even s0 then s0 else s0 + 1.

Fixpoint shortest_aux (z nd : Z) (e : nat) : Z * Z :=
  let ez := Z.of_nat e in
  let s0 := z / 10 ^ ez in
  let ok0 := num_eqb (round_int (s0 * 10 ^ ez)) (Integral z) in
  let ok1 := num_eqb (round_int ((s0 + 1) * 10 ^ ez)) (Integral z) in
  let pick s := if s =? 10 ^ (nd - ez) then (1, nd) else (s, ez) in
  if ok0 && ok1 then pick (closer z ez s0)
  else if ok0 then pick s0
  else if ok1 then pick (s0 + 1)
  else match e with
       | O => (z, 0)
       | S e' => shortest_aux z nd e'
       end.

(** Steps 6 and 10 of Number::toString for [s * 10^e] with [n = e + k]:
    plain digits followed by zeros when [n <= 21], exponential otherwise. *)
Definition format_pos (s e : Z) : string :=
  let ds := rev (digits_of s) in
  let k := Z.of_nat (length ds) in
  let n := e + k in
  if n <=? 21 then string_of_digits (ds ++ repeat 0 (Z.to_nat e))
  else
    match ds with
    | [] => EmptyString
    | d :: rest =>
        String (digit_char d)
          ((match rest with
            | [] => EmptyString
            | _ => String "." (string_of_digits rest)
            end) ++ "e+" ++ Z_to_dec (n - 1))
    end.

Definition pos_toString (z : Z) : string :=
  let nd := Z.of_nat (length (digits_of z)) in
  let '(s, e) := shortest_aux z nd (Z.to_nat (nd - 1)) in
  format_pos s e.

Definition js_toString (x : js_number) : string :=
  match x with
  | NaN => "NaN"
  | Infinity false => "Infinity"
  | Infinity true => "-Infinity"
  | Integral z =>
      if z =? 0 then "0"
      else if z <? 0 then String "-" (pos_toString (- z))
      else pos_toString z
  end.

(** ** parseInt(string) with no radix (ECMAScript 19.2.5)

    Strings are sequences of 8-bit code units; the white space skipped is
    TAB, LF, VT, FF, CR, SPACE and NO-BREAK SPACE (U+00A0). *)
Definition is_ws (c : ascii) : bool :=
  let n := nat_of_ascii c in
  (n =? 9)%nat || (n =? 10)%nat || (n =? 11)%nat || (n =? 12)%nat
  || (n =? 13)%nat || (n =? 32)%nat || (n =? 160)%nat.

Fixpoint trim_start (s : string) : string :=
  match s with
  | EmptyString => EmptyString
  | String c r => if is_ws c then trim_start r else s
  end.

(** Steps 4-5: the sign. *)
Definition strip_sign (s : string) : Z * string :=
  match s with
  | String c r =>
      if Ascii.eqb c "-" then (-1, r)
      else if Ascii.eqb c "+" then (1, r)
      else (1, s)
  | EmptyString => (1, s)
  end.

(** Steps 8-10 with R = 0: "0x" or "0X" selects radix 16, otherwise 10. *)
Definition strip_hex_prefix (s : string) : Z * string :=
  match s with
  | String c0 (String c1 r) =>
      if Ascii.eqb c0 "0" && (Ascii.eqb c1 "x" || Ascii.eqb c1 "X")
      then (16, r) else (10, s)
  | _ => (10, s)
  end.

(** Value of a radix-R digit: 0-9, then a-z / A-Z from 10. *)
Definition digit_value (R : Z) (c : ascii) : option Z :=
  let n := Z.of_nat (nat_of_ascii c) in
  let d :=
    if (48 <=? n) && (n <=? 57) then Some (n - 48)
    else if (97 <=? n) && (n <=? 122) then Some (n - 87)
    else if (65 <=? n) && (n <=? 90) then Some (n - 55)
    else None in
  match d with
  | Some v => if v <? R then Some v else None
  | None => None
  end.

(** Step 11: the longest prefix of radix-R digits. *)
Fixpoint take_digits (R : Z) (s : string) : list Z :=
  match s with
  | EmptyString => []
  | String c r =>
      match digit_value R c with
      | Some d => d :: take_digits R r
      | None => []
      end
  end.

Definition digits_value (R : Z) (ds : list Z) : Z :=
  fold_left (fun acc d => acc * R + d) ds 0.

(** Sign, radix and digit prefix read by parseInt. *)
Definition parseInt_digits (input : string) : Z * Z * list Z :=
  let '(sign, s1) := strip_sign (trim_start input) in
  let '(R, s2) := strip_hex_prefix s1 in
  (sign, R, take_digits R s2).

(** Steps 12-16: NaN when no digit was read, otherwise 𝔽(sign × value). *)
Definition js_parseInt (input : string) : js_number :=
  let '(sign, R, ds) := parseInt_digits input in
  match ds with
  | [] => NaN
  | _ => round_int (sign * digits_value R ds)
  end.

(** ** The click handler *)

Record result := { textContent : string; color : string }.

Definition invalid_range_msg : string := "Invalid range".
Definition found_msg : string := "Password is within range ?".
Definition not_found_msg : string := "Password NOT in range ?".

Definition invalid_range_result : result :=
  {| textContent := invalid_range_msg; color := "red" |}.
Definition found_result : result :=
  {| textContent := found_msg; color := "green" |}.
Definition not_found_result : result :=
  {| textContent := not_found_msg; color := "red" |}.

(** [for (let i = start; i <= end; i++) if (i.toString() === password)
    { found = true; break; }].  [fuel] bounds the number of evaluations of
    the loop condition; [None] means the fuel ran out. *)
Fixpoint scan (fuel : nat) (password : string) (i end_ : js_number)
  : option bool :=
  match fuel with
  | O => None
  | S f =>
      if js_le i end_ then
        if String.eqb (js_toString i) password then Some true
        else scan f password (js_incr i) end_
      else Some false
  end.

Definition check_handler (fuel : nat) (password start_s end_s : string)
  : option result :=
  let start := js_parseInt start_s in
  let end_ := js_parseInt end_s in
  if is_nan start || is_nan end_ then Some invalid_range_result
  else
    match scan fuel password start end_ with
    | Some found => Some (if found then found_result else not_found_result)
    | None => None
    end.

(** The handler, run on the three field values, finishes and writes [r]. *)
Definition handler_writes (password start_s end_s : string) (r : result)
  : Prop :=
  exists fuel, check_handler fuel password start_s end_s = Some r.

(** ** Notions of the specification

    The following definitions follow the words of the specification and are
    compared with the code in the theorems below. *)

(** "There exists an integer i with start <= i <= end whose decimal string
    equals the password" (the declarative membership check). *)
Definition spec_in_range (pw : string) (a b : Z) : Prop :=
  exists i, a <= i <= b /\ Z_to_dec i = pw.

Definition is_dec_digit (c : ascii) : bool :=
  let n := nat_of_ascii c in (48 <=? n)%nat && (n <=? 57)%nat.

Fixpoint all_dec_digits (s : string) : bool :=
  match s with
  | EmptyString => true
  | String c r => is_dec_digit c && all_dec_digits r
  end.

Definition spec_unsigned_dec (s : string) : bool :=
  match s with
  | EmptyString => false
  | _ => all_dec_digits s
  end.

(** A well-formed base-10 integer string: an optional minus sign followed
    by one or more decimal digits. *)
Definition spec_well_formed_dec (s : string) : bool :=
  match s with
  | String c r => if Ascii.eqb c "-" then spec_unsigned_dec r else spec_unsigned_dec s
  | EmptyString => false
  end.

Fixpoint dec_value_acc (acc : Z) (s : string) : Z :=
  match s with
  | EmptyString => acc
  | String c r => dec_value_acc (acc * 10 + (Z.of_nat (nat_of_ascii c) - 48)) r
  end.

(** Its base-10 value. *)
Definition spec_dec_value (s : string) : Z :=
  match s with
  | String c r => if Ascii.eqb c "-" then - dec_value_acc 0 r else dec_value_acc 0 s
  | EmptyString => 0
  end.

Example ex_ts1 : js_toString (Integral (2 ^ 60)) = "1152921504606847000".
Proof. vm_compute. reflexivity. Qed.
Example ex_ts2 : js_toString (Integral (10 ^ 21)) = "1e+21".
Proof. vm_compute. reflexivity. Qed.
Example ex_ts3 : js_toString (Integral (-1234500)) = "-1234500".
Proof. vm_compute. reflexivity. Qed.
Example ex_p1 : js_parseInt "  -0x1A!" = Integral (-26).
Proof. vm_compute. reflexivity. Qed.
Example ex_p2 : js_parseInt "9007199254740993" = Integral (2 ^ 53).
Proof. vm_compute. reflexivity. Qed.
Example ex_h1 : check_handler 20 "5" "1" "10" = Some found_result.
Proof. vm_compute. reflexivity. Qed.
Example ex_h2 : check_handler 20 "05" "1" "10" = Some not_found_result.
Proof. vm_compute. reflexivity. Qed.
Example ex_h3 : check_handler 0 "5" "a" "10" = Some invalid_range_result.
Proof. vm_compute. reflexivity. Qed.

(** ** Rounding integers to binary64 *)

Lemma round_int_exact (z : Z) : Z.abs z <= 2 ^ 53 -> round_int z = Integral z.
Proof.
  intros Hz.
  destruct (Z.eq_dec (Z.abs z) (2 ^ 53)) as [Heq|Hne].
  - destruct (Z.abs_spec z) as [[_ Ha]|[_ Ha]]; rewrite Ha in Heq.
    + subst z. vm_compute. reflexivity.
    + assert (z = - 2 ^ 53) by lia. subst z. vm_compute. reflexivity.
  - unfold round_int. replace (Z.abs z <? 2 ^ 53) with true; [reflexivity|].
    symmetry. apply Z.ltb_lt. lia.
Qed.

Lemma round_int_not_nan (z : Z) : round_int z <> NaN.
Proof.
  unfold round_int.
  destruct (Z.abs z <? 2 ^ 53); [discriminate|].
  destruct (2 ^ 1024 <=? _); discriminate.
Qed.

(** Rounding never brings a value of magnitude 2^53 or more below 2^53. *)
Lemma round_int_large (y : Z) :
  2 ^ 53 <= Z.abs y ->
  (exists neg, round_int y = Infinity neg) \/
  (exists v, round_int y = Integral v /\ 2 ^ 53 <= Z.abs v).
Proof.
  intros Hy. unfold round_int.
  replace (Z.abs y <? 2 ^ 53) with false by (symmetry; apply Z.ltb_ge; lia).
  set (a := Z.abs y) in *.
  assert (Hlog : 53 <= Z.log2 a).
  { rewrite <- (Z.log2_pow2 53) by lia. apply Z.log2_le_mono. exact Hy. }
  assert (Ha : 2 ^ Z.log2 a <= a) by (apply Z.log2_spec; lia).
  set (sh := Z.log2 a - 52).
  assert (Hsplit : 2 ^ Z.log2 a = 2 ^ 52 * 2 ^ sh).
  { rewrite <- Z.pow_add_r by lia. f_equal. unfold sh. lia. }
  assert (Hpos : 0 < 2 ^ sh) by (apply Z.pow_pos_nonneg; unfold sh; lia).
  assert (Hq : 2 ^ 52 <= a / 2 ^ sh).
  { apply Z.div_le_lower_bound; [lia|]. rewrite Z.mul_comm, <- Hsplit. exact Ha. }
  assert (H53 : 2 ^ 53 <= 2 ^ Z.log2 a) by (apply Z.pow_le_mono_r; lia).
  set (q := a / 2 ^ sh) in *.
  match goal with |- context [if ?c then q + 1 else q] =>
    set (q' := if c then q + 1 else q) end.
  assert (Hq' : q <= q') by (unfold q'; destruct (_ || _); lia).
  destruct (2 ^ 1024 <=? q' * 2 ^ sh).
  - left. eexists. reflexivity.
  - right. eexists. split; [reflexivity|].
    rewrite Z.abs_mul.
    assert (Hsg : Z.abs (Z.sgn y) = 1).
    { destruct y; simpl in *; lia. }
    rewrite Hsg, Z.mul_1_l.
    assert (2 ^ 52 * 2 ^ sh <= q' * 2 ^ sh) by (apply Z.mul_le_mono_nonneg_r; lia).
    lia.
Qed.

(** A double below 2^53 in magnitude is reached only from its own value. *)
Lemma round_int_inv_safe (y z : Z) :
  round_int y = Integral z -> Z.abs z < 2 ^ 53 -> y = z.
Proof.
  intros H Hz.
  destruct (Z_lt_le_dec (Z.abs y) (2 ^ 53)) as [Hy|Hy].
  - rewrite round_int_exact in H by lia. congruence.
  - destruct (round_int_large y Hy) as [[neg Hn]|[v [Hv Hb]]].
    + congruence.
    + rewrite Hv in H. injection H as ->. lia.
Qed.

Lemma num_eqb_eq (x y : js_number) : num_eqb x y = true <-> x = y.
Proof.
  destruct x, y; simpl; split; intros H; try discriminate; try congruence.
  - apply Bool.eqb_prop in H. congruence.
  - inversion H; subst. apply Bool.eqb_reflx.
  - apply Z.eqb_eq in H. congruence.
  - inversion H; subst. apply Z.eqb_refl.
Qed.

(** ** Decimal digits *)

Lemma digits_le_fuel (f : nat) : forall (z : Z) (g : nat),
  0 <= z < 10 ^ Z.of_nat (S f) -> (f <= g)%nat ->
  digits_le (S g) z = digits_le (S f) z.
Proof.
  induction f as [|f IH]; intros z g Hz Hfg.
  - simpl in Hz. simpl. replace (z <? 10) with true by (symmetry; apply Z.ltb_lt; lia).
    destruct g; reflexivity.
  - destruct g as [|g]; [lia|].
    cbn [digits_le]. destruct (z <? 10) eqn:Hlt; [reflexivity|].
    apply Z.ltb_ge in Hlt. f_equal.
    rewrite Nat2Z.inj_succ, Z.pow_succ_r in Hz by lia.
    change (digits_le (S g) (z / 10) = digits_le (S f) (z / 10)).
    apply IH; [|lia]. split.
    + apply Z.div_pos; lia.
    + apply Z.div_lt_upper_bound; lia.
Qed.

Lemma digits_of_fuel (z : Z) (f : nat) :
  0 <= z < 10 ^ Z.of_nat (S f) -> digits_of z = digits_le (S f) z.
Proof.
  intros Hz. unfold digits_of.
  assert (Hb : 0 <= z < 10 ^ Z.of_nat (S (Z.to_nat (Z.log2 z)))).
  { split; [lia|]. rewrite Nat2Z.inj_succ, Z2Nat.id by apply Z.log2_nonneg.
    destruct (Z.eq_dec z 0) as [->|Hnz]; [simpl; lia|].
    apply Z.lt_le_trans with (2 ^ Z.succ (Z.log2 z)).
    - apply Z.log2_spec; lia.
    - apply Z.pow_le_mono_l. split; [lia|lia]. }
  destruct (Nat.le_ge_cases f (Z.to_nat (Z.log2 z))) as [H|H].
  - apply digits_le_fuel; assumption.
  - symmetry. apply digits_le_fuel; assumption.
Qed.

Lemma digits_of_mul10 (s : Z) : 1 <= s -> digits_of (s * 10) = 0 :: digits_of s.
Proof.
  intros Hs.
  set (f := S (Z.to_nat (Z.log2 s))).
  assert (Hb : 0 <= s < 10 ^ Z.of_nat (S f)).
  { split; [lia|]. unfold f. rewrite !Nat2Z.inj_succ, Z2Nat.id by apply Z.log2_nonneg.
    apply Z.lt_le_trans with (2 ^ Z.succ (Z.log2 s)).
    - apply Z.log2_spec; lia.
    - apply Z.le_trans with (10 ^ Z.succ (Z.log2 s)).
      + apply Z.pow_le_mono_l. split; [lia|lia].
      + apply Z.pow_le_mono_r; lia. }
  rewrite (digits_of_fuel s f Hb).
  rewrite (digits_of_fuel (s * 10) (S f)).
  - cbn [digits_le]. replace (s * 10 <? 10) with false by (symmetry; apply Z.ltb_ge; lia).
    rewrite Z.mod_mul, Z.div_mul by lia. reflexivity.
  - split; [lia|]. rewrite (Nat2Z.inj_succ (S f)), Z.pow_succ_r by lia. lia.
Qed.

Lemma digits_of_mul_pow (s : Z) (m : nat) :
  1 <= s -> digits_of (s * 10 ^ Z.of_nat m) = (repeat 0 m ++ digits_of s)%list.
Proof.
  intros Hs. induction m as [|m IH].
  - simpl. rewrite Z.mul_1_r. reflexivity.
  - rewrite Nat2Z.inj_succ, Z.pow_succ_r, Z.mul_comm with (n := 10), Z.mul_assoc by lia.
    rewrite digits_of_mul10.
    + rewrite IH. reflexivity.
    + assert (0 < 10 ^ Z.of_nat m) by (apply Z.pow_pos_nonneg; lia). nia.
Qed.

Lemma digits_le_length (f : nat) (z : Z) : (length (digits_le f z) <= f)%nat.
Proof.
  revert z. induction f as [|f IH]; intros z; simpl; [lia|].
  destruct (z <? 10); simpl; [lia|]. specialize (IH (z / 10)). lia.
Qed.

(** The most significant digit of a positive integer is 1..9. *)
Lemma digits_le_last (f : nat) : forall z : Z,
  1 <= z < 10 ^ Z.of_nat (S f) ->
  exists l d, digits_le (S f) z = (l ++ [d])%list /\ 1 <= d <= 9.
Proof.
  induction f as [|f IH]; intros z Hz.
  - simpl in Hz. exists [], z. simpl.
    replace (z <? 10) with true by (symmetry; apply Z.ltb_lt; lia). split; [reflexivity|lia].
  - cbn [digits_le]. destruct (z <? 10) eqn:Hlt.
    + apply Z.ltb_lt in Hlt. exists [], z. split; [reflexivity|lia].
    + apply Z.ltb_ge in Hlt.
      rewrite Nat2Z.inj_succ, Z.pow_succ_r in Hz by lia.
      destruct (IH (z / 10)) as [l [d [Hl Hd]]].
      * split.
        -- apply Z.div_le_lower_bound; lia.
        -- apply Z.div_lt_upper_bound; lia.
      * exists (z mod 10 :: l), d. split; [|exact Hd].
        simpl in Hl |- *. rewrite Hl. reflexivity.
Qed.

Lemma digits_of_last (z : Z) :
  1 <= z -> exists l d, digits_of z = (l ++ [d])%list /\ 1 <= d <= 9.
Proof.
  intros Hz. unfold digits_of. apply digits_le_last. split; [lia|].
  rewrite Nat2Z.inj_succ, Z2Nat.id by apply Z.log2_nonneg.
  apply Z.lt_le_trans with (2 ^ Z.succ (Z.log2 z)).
  - apply Z.log2_spec; lia.
  - apply Z.pow_le_mono_l. split; [lia|lia].
Qed.

Lemma digits_of_nonempty (z : Z) : digits_of z <> [].
Proof.
  unfold digits_of. simpl. destruct (z <? 10); discriminate.
Qed.

(** ** Number::toString *)

Lemma pick_ok (z nd ez s : Z) :
  1 <= z -> 0 <= ez < nd -> 0 <= s -> round_int (s * 10 ^ ez) = Integral z ->
  let p := if s =? 10 ^ (nd - ez) then (1, nd) else (s, ez) in
  1 <= fst p /\ 0 <= snd p /\ round_int (fst p * 10 ^ snd p) = Integral z.
Proof.
  intros Hz He Hs Hr p. unfold p.
  destruct (s =? 10 ^ (nd - ez)) eqn:Heq; cbn [fst snd].
  - apply Z.eqb_eq in Heq. subst s. split; [lia|split; [lia|]].
    rewrite <- Z.pow_add_r in Hr by lia.
    replace (nd - ez + ez) with nd in Hr by lia. rewrite Z.mul_1_l. exact Hr.
  - split; [|split; [lia|exact Hr]].
    destruct (Z.eq_dec s 0) as [->|]; [|lia].
    simpl in Hr. rewrite round_int_exact in Hr by (simpl; lia).
    injection Hr. lia.
Qed.

Lemma closer_cases (z e s0 : Z) : closer z e s0 = s0 \/ closer z e s0 = s0 + 1.
Proof.
  unfold closer.
  destruct (_ <? _); [now left|]. destruct (_ <? _); [now right|].
  destruct (Z.even s0); [now left|now right].
Qed.

(** What the search returns: a positive significand [s] and exponent [e]
    with [s * 10^e] rounding to [z], or [z] itself. *)
Lemma shortest_aux_spec (z nd : Z) (e : nat) :
  1 <= z -> Z.of_nat e < nd ->
  forall s e', shortest_aux z nd e = (s, e') ->
  1 <= s /\ 0 <= e' /\
  (round_int (s * 10 ^ e') = Integral z \/ (s = z /\ e' = 0)).
Proof.
  intros Hz. induction e as [|e IH]; intros He s e' H;
    cbn [shortest_aux] in H; cbv zeta in H;
    set (ez := Z.of_nat _) in H;
    set (s0 := z / 10 ^ ez) in H;
    (assert (Hs0 : 0 <= s0) by (apply Z.div_pos; [lia|apply Z.pow_pos_nonneg; lia]));
    (assert (Hez : 0 <= ez < nd) by (unfold ez; lia));
    destruct (num_eqb (round_int (s0 * 10 ^ ez)) (Integral z)) eqn:H0;
    destruct (num_eqb (round_int ((s0 + 1) * 10 ^ ez)) (Integral z)) eqn:H1;
    simpl in H; rewrite ?num_eqb_eq in H0; rewrite ?num_eqb_eq in H1.
  all: try (destruct (closer_cases z ez s0) as [Hc|Hc]; rewrite Hc in H).
  all: try match type of H with
       | (if ?t =? _ then _ else _) = _ =>
           let Hok := fresh in
           assert (Hok : round_int (t * 10 ^ ez) = Integral z) by assumption;
           pose proof (pick_ok z nd ez t Hz Hez ltac:(lia) Hok) as Hp;
           cbv zeta in Hp; rewrite H in Hp; simpl in Hp; lia || tauto
       end.
  - injection H as <- <-. lia.
  - apply IH; [lia|exact H].
Qed.

Lemma string_of_digits_app (a b : list Z) :
  string_of_digits (a ++ b)%list = string_of_digits a ++ string_of_digits b.
Proof.
  induction a as [|d a IH]; [reflexivity|]. simpl. unfold string_of_digits in *. simpl.
  rewrite IH. reflexivity.
Qed.

Lemma rev_repeat_Z (n : nat) (x : Z) : rev (repeat x n) = repeat x n.
Proof.
  induction n as [|n IH]; [reflexivity|].
  simpl. rewrite IH. clear IH. induction n as [|n IH]; [reflexivity|].
  simpl. rewrite IH. reflexivity.
Qed.

(** Safe integers print as their plain decimal representation. *)
Lemma pos_toString_safe (z : Z) :
  1 <= z < 2 ^ 53 -> pos_toString z = string_of_digits (rev (digits_of z)).
Proof.
  intros Hz. unfold pos_toString.
  set (nd := Z.of_nat (length (digits_of z))).
  assert (Hnd : 1 <= nd).
  { unfold nd. destruct (digits_of z) eqn:E; [now apply digits_of_nonempty in E|].
    simpl. lia. }
  destruct (shortest_aux z nd (Z.to_nat (nd - 1))) as [s e] eqn:Hs.
  assert (Hb : Z.of_nat (Z.to_nat (nd - 1)) < nd) by (rewrite Z2Nat.id; lia).
  destruct (shortest_aux_spec z nd _ ltac:(lia) Hb s e Hs)
    as [Hs1 [He Hr]].
  assert (Hval : s * 10 ^ e = z).
  { destruct Hr as [Hr|[-> ->]].
    - apply (round_int_inv_safe _ z Hr). lia.
    - lia. }
  assert (Hdig : digits_of z = (repeat 0 (Z.to_nat e) ++ digits_of s)%list).
  { rewrite <- Hval, <- (Z2Nat.id e) at 1 by lia. apply digits_of_mul_pow. lia. }
  assert (Hlen : (length (digits_of z) <= 16)%nat).
  { rewrite (digits_of_fuel z 15) by (split; [lia|]; simpl; lia).
    apply digits_le_length. }
  unfold format_pos.
  rewrite Hdig in Hlen. rewrite length_app, repeat_length in Hlen.
  replace (e + Z.of_nat (length (rev (digits_of s))) <=? 21) with true.
  - rewrite Hdig, rev_app_distr, rev_repeat_Z. reflexivity.
  - symmetry. apply Z.leb_le. rewrite length_rev. lia.
Qed.

Lemma js_toString_safe (z : Z) :
  Z.abs z < 2 ^ 53 -> js_toString (Integral z) = Z_to_dec z.
Proof.
  intros Hz. unfold js_toString, Z_to_dec.
  destruct (Z.eqb_spec z 0) as [->|Hnz]; [reflexivity|].
  destruct (Z.ltb_spec z 0).
  - rewrite pos_toString_safe by lia. reflexivity.
  - apply pos_toString_safe. lia.
Qed.

Lemma digit_char_nonzero (d : Z) : 1 <= d <= 9 -> digit_char d <> "0"%char.
Proof.
  intros Hd Heq. unfold digit_char in Heq.
  apply (f_equal nat_of_ascii) in Heq.
  assert (H9 : (Z.to_nat d <= 9)%nat)
    by (change 9%nat with (Z.to_nat 9); apply Z2Nat.inj_le; lia).
  assert (H1 : (1 <= Z.to_nat d)%nat)
    by (change 1%nat with (Z.to_nat 1); apply Z2Nat.inj_le; lia).
  rewrite nat_ascii_embedding in Heq by lia.
  change (nat_of_ascii "0") with 48%nat in Heq. lia.
Qed.

(** The first character printed for a positive value is a digit 1..9. *)
Lemma pos_toString_head (z : Z) :
  1 <= z -> exists d r, pos_toString z = String (digit_char d) r /\ 1 <= d <= 9.
Proof.
  intros Hz. unfold pos_toString.
  set (nd := Z.of_nat (length (digits_of z))).
  assert (Hnd : 1 <= nd).
  { unfold nd. destruct (digits_of z) eqn:E; [now apply digits_of_nonempty in E|].
    simpl. lia. }
  destruct (shortest_aux z nd (Z.to_nat (nd - 1))) as [s e] eqn:Hs.
  assert (Hb : Z.of_nat (Z.to_nat (nd - 1)) < nd) by (rewrite Z2Nat.id; lia).
  destruct (shortest_aux_spec z nd _ ltac:(lia) Hb s e Hs) as [Hs1 _].
  destruct (digits_of_last s Hs1) as [l [d [Hl Hd]]].
  unfold format_pos. rewrite Hl, rev_app_distr. simpl.
  destruct (_ <=? 21).
  - exists d. eexists. split; [reflexivity|exact Hd].
  - exists d. eexists. split; [reflexivity|exact Hd].
Qed.

(** Number-to-string never yields a leading zero followed by more text. *)
Lemma js_toString_no_leading_zero (x : js_number) (r : string) :
  js_toString x = String "0" r -> r = EmptyString.
Proof.
  destruct x as [|[|]|z]; simpl; try discriminate.
  destruct (Z.eqb_spec z 0) as [_|Hnz]; [congruence|].
  destruct (Z.ltb_spec z 0); [discriminate|].
  destruct (pos_toString_head z ltac:(lia)) as [d [r' [-> Hd]]].
  intros Hs. injection Hs as Hc _. exfalso. exact (digit_char_nonzero d Hd Hc).
Qed.

(** ** The scan and the handler *)

Lemma scan_mono (f : nat) : forall g pw i e b,
  (f <= g)%nat -> scan f pw i e = Some b -> scan g pw i e = Some b.
Proof.
  induction f as [|f IH]; intros g pw i e b Hle H; [discriminate|].
  destruct g as [|g]; [lia|].
  cbn [scan] in *. destruct (js_le i e); [|exact H].
  destruct (String.eqb _ _); [exact H|]. apply IH; [lia|exact H].
Qed.

Lemma check_handler_mono (f g : nat) pw s e r :
  (f <= g)%nat -> check_handler f pw s e = Some r -> check_handler g pw s e = Some r.
Proof.
  unfold check_handler. intros Hle.
  destruct (is_nan _ || is_nan _); [tauto|].
  destruct (scan f pw _ _) as [b|] eqn:Hs; [|discriminate].
  rewrite (scan_mono f g pw _ _ b Hle Hs). tauto.
Qed.

Lemma check_handler_det (f1 f2 : nat) pw s e r1 r2 :
  check_handler f1 pw s e = Some r1 -> check_handler f2 pw s e = Some r2 -> r1 = r2.
Proof.
  intros H1 H2.
  apply (check_handler_mono f1 (Nat.max f1 f2)) in H1; [|lia].
  apply (check_handler_mono f2 (Nat.max f1 f2)) in H2; [|lia].
  congruence.
Qed.

(** On safe integers the loop visits [i, i+1, ..., b] and finds exactly
    the decimal representations of that range. *)
Lemma scan_safe (n : nat) : forall pw i b,
  - (2 ^ 53 - 1) <= i -> b <= 2 ^ 53 - 1 -> b - i + 1 <= Z.of_nat n ->
  exists found, scan (S n) pw (Integral i) (Integral b) = Some found /\
    (found = true <-> exists j, i <= j <= b /\ Z_to_dec j = pw).
Proof.
  induction n as [|n IH]; intros pw i b Hi Hb Hn; cbn [scan js_le].
  - destruct (Z.leb_spec i b); [lia|].
    exists false. split; [reflexivity|]. split; [discriminate|].
    intros [j [Hj _]]. lia.
  - destruct (Z.leb_spec i b) as [Hib|Hib].
    + rewrite js_toString_safe by lia.
      destruct (String.eqb_spec (Z_to_dec i) pw) as [Heq|Hne].
      * exists true. split; [reflexivity|]. split; [|reflexivity].
        intros _. exists i. split; [lia|exact Heq].
      * unfold js_incr. rewrite round_int_exact by lia.
        destruct (IH pw (i + 1) b ltac:(lia) Hb ltac:(lia)) as [found [Hs Hf]].
        exists found. split; [exact Hs|]. rewrite Hf.
        split; intros [j [Hj Hd]].
        -- exists j. split; [lia|exact Hd].
        -- exists j. split; [|exact Hd].
           destruct (Z.eq_dec j i) as [->|]; [contradiction|lia].
    + exists false. split; [reflexivity|]. split; [discriminate|].
      intros [j [Hj _]]. lia.
Qed.

(** At 2^53 the increment rounds back to 2^53: the loop stays there. *)
Lemma js_incr_2p53 : js_incr (Integral (2 ^ 53)) = Integral (2 ^ 53).
Proof. vm_compute. reflexivity. Qed.

Lemma scan_stuck_2p53 (fuel : nat) (pw : string) (b : Z) :
  2 ^ 53 <= b -> js_toString (Integral (2 ^ 53)) <> pw ->
  scan fuel pw (Integral (2 ^ 53)) (Integral b) = None.
Proof.
  intros Hb Hpw. induction fuel as [|fuel IH]; [reflexivity|].
  cbn [scan]. unfold js_le at 1.
  replace (2 ^ 53 <=? b) with true by (symmetry; apply Z.leb_le; exact Hb).
  destruct (String.eqb_spec (js_toString (Integral (2 ^ 53))) pw); [contradiction|].
  rewrite js_incr_2p53. exact IH.
Qed.

Lemma js_parseInt_nan (s : string) :
  js_parseInt s = NaN <-> snd (parseInt_digits s) = [].
Proof.
  unfold js_parseInt. destruct (parseInt_digits s) as [[sg R] ds]. simpl.
  destruct ds; split; intros H; try reflexivity; try discriminate.
  exfalso. exact (round_int_not_nan _ H).
Qed.

Lemma check_handler_safe (pw s e : string) (a b : Z) :
  js_parseInt s = Integral a -> js_parseInt e = Integral b ->
  - (2 ^ 53 - 1) <= a -> b <= 2 ^ 53 - 1 ->
  exists found : bool,
    check_handler (S (Z.to_nat (b - a + 1))) pw s e
      = Some (if found then found_result else not_found_result) /\
    (found = true <-> exists j, a <= j <= b /\ Z_to_dec j = pw).
Proof.
  intros Hs He Ha Hb.
  assert (Hn : b - a + 1 <= Z.of_nat (Z.to_nat (b - a + 1))).
  { destruct (Z_le_gt_dec 0 (b - a + 1)).
    - rewrite Z2Nat.id; lia.
    - lia. }
  destruct (scan_safe _ pw a b Ha Hb Hn) as [found [Hscan Hf]].
  exists found. split; [|exact Hf].
  unfold check_handler. rewrite Hs, He. cbn [is_nan orb]. rewrite Hscan. reflexivity.
Qed.

Lemma scan_never_true (pw : string) :
  (forall x, js_toString x <> pw) ->
  forall fuel i e, scan fuel pw i e <> Some true.
Proof.
  intros Hpw fuel. induction fuel as [|fuel IH]; intros i e; cbn [scan]; [discriminate|].
  destruct (js_le i e); [|discriminate].
  destruct (String.eqb_spec (js_toString i) pw) as [Heq|_].
  - exfalso. exact (Hpw i Heq).
  - apply IH.
Qed.

Lemma parse_2p53 : js_parseInt "9007199254740992" = Integral (2 ^ 53).
Proof. vm_compute. reflexivity. Qed.

Lemma parse_2p53_plus2 : js_parseInt "9007199254740994" = Integral (2 ^ 53 + 2).
Proof. vm_compute. reflexivity. Qed.

(** With start = 2^53 and end = 2^53 + 2 the handler never finishes unless
    the password is "9007199254740992". *)
Lemma handler_stuck_2p53 (fuel : nat) (pw : string) :
  js_toString (Integral (2 ^ 53)) <> pw ->
  check_handler fuel pw "9007199254740992" "9007199254740994" = None.
Proof.
  intros Hpw. unfold check_handler. rewrite parse_2p53, parse_2p53_plus2. cbn [is_nan orb].
  rewrite scan_stuck_2p53; [reflexivity|lia|exact Hpw].
Qed.

(** ** Reading well-formed decimal strings *)

Lemma dec_digit_facts (c : ascii) :
  is_dec_digit c = true ->
  is_ws c = false /\ Ascii.eqb c "-" = false /\ Ascii.eqb c "+" = false /\
  Ascii.eqb c "x" = false /\ Ascii.eqb c "X" = false /\
  digit_value 10 c = Some (Z.of_nat (nat_of_ascii c) - 48).
Proof.
  intros Hd.
  assert (Hn : (48 <= nat_of_ascii c <= 57)%nat).
  { unfold is_dec_digit in Hd. apply andb_prop in Hd as [H1 H2].
    apply Nat.leb_le in H1, H2. lia. }
  repeat split.
  - unfold is_ws. repeat rewrite (proj2 (Nat.eqb_neq _ _)) by lia. reflexivity.
  - destruct (Ascii.eqb_spec c "-") as [->|]; [discriminate|reflexivity].
  - destruct (Ascii.eqb_spec c "+") as [->|]; [discriminate|reflexivity].
  - destruct (Ascii.eqb_spec c "x") as [->|]; [discriminate|reflexivity].
  - destruct (Ascii.eqb_spec c "X") as [->|]; [discriminate|reflexivity].
  - unfold digit_value. cbv zeta.
    replace ((48 <=? Z.of_nat (nat_of_ascii c)) && (Z.of_nat (nat_of_ascii c) <=? 57))
      with true by (symmetry; apply andb_true_intro; split; apply Z.leb_le; lia).
    replace (Z.of_nat (nat_of_ascii c) - 48 <? 10) with true
      by (symmetry; apply Z.ltb_lt; lia).
    reflexivity.
Qed.

Lemma take_digits_dec (r : string) : forall acc,
  all_dec_digits r = true ->
  fold_left (fun acc d => acc * 10 + d) (take_digits 10 r) acc = dec_value_acc acc r.
Proof.
  induction r as [|c r IH]; intros acc Hr; [reflexivity|].
  simpl in Hr. apply andb_prop in Hr as [Hc Hr].
  destruct (dec_digit_facts c Hc) as [_ [_ [_ [_ [_ Hv]]]]].
  simpl. rewrite Hv. simpl. apply IH. exact Hr.
Qed.

(** An unsigned digit string is read whole, in base 10. *)
Lemma unsigned_dec_read (t : string) :
  spec_unsigned_dec t = true ->
  strip_hex_prefix t = (10, t) /\ take_digits 10 t <> [] /\
  digits_value 10 (take_digits 10 t) = dec_value_acc 0 t.
Proof.
  destruct t as [|c r]; [discriminate|]. intros Ht. simpl in Ht.
  pose proof Ht as Hall. apply andb_prop in Ht as [Hc Hr].
  destruct (dec_digit_facts c Hc) as [_ [_ [_ [_ [_ Hv]]]]].
  split; [|split].
  - destruct r as [|c1 r1]; [reflexivity|].
    simpl in Hr. apply andb_prop in Hr as [Hc1 _].
    destruct (dec_digit_facts c1 Hc1) as [_ [_ [_ [Hx [HX _]]]]].
    simpl. rewrite Hx, HX. rewrite andb_false_r. reflexivity.
  - simpl. rewrite Hv. discriminate.
  - unfold digits_value. apply take_digits_dec. simpl. rewrite Hc, Hr. reflexivity.
Qed.

Lemma parseInt_well_formed (s : string) :
  spec_well_formed_dec s = true -> js_parseInt s = round_int (spec_dec_value s).
Proof.
  destruct s as [|c r]; [discriminate|]. unfold spec_well_formed_dec, spec_dec_value.
  unfold js_parseInt, parseInt_digits.
  destruct (Ascii.eqb_spec c "-") as [->|Hc]; intros Hw.
  - destruct (unsigned_dec_read r Hw) as [Hh [Hne Hval]].
    cbn [trim_start]. change (is_ws "-") with false.
    cbn [strip_sign]. change (Ascii.eqb "-" "-") with true.
    cbn -[round_int take_digits digits_value strip_hex_prefix]. rewrite Hh.
    destruct (take_digits 10 r) as [|d ds] eqn:Ht; [contradiction|].
    rewrite <- Hval. f_equal; lia.
  - destruct (unsigned_dec_read (String c r) Hw) as [Hh [Hne Hval]].
    simpl in Hw. apply andb_prop in Hw as [Hd _].
    destruct (dec_digit_facts c Hd) as [Hws [Hm [Hp _]]].
    cbn [trim_start]. rewrite Hws. cbn [strip_sign]. rewrite Hm, Hp. rewrite Hh.
    destruct (take_digits 10 (String c r)) as [|d ds] eqn:Ht; [contradiction|].
    rewrite <- Hval. f_equal; lia.
Qed.

Lemma handler_invalid_iff (pw s e : string) :
  handler_writes pw s e invalid_range_result <->
  js_parseInt s = NaN \/ js_parseInt e = NaN.
Proof.
  unfold handler_writes, check_handler. split.
  - intros [fuel H].
    destruct (js_parseInt s) eqn:Hs; [now left|..];
    destruct (js_parseInt e) eqn:He; try (now right);
    cbn [is_nan orb] in H;
    destruct (scan fuel pw _ _) as [[|]|]; discriminate.
  - intros Hn. exists 0%nat.
    destruct Hn as [-> | ->]; [reflexivity|]. rewrite orb_true_r. reflexivity.
Qed.

(** ** Claims *)

(** C1 (amended).  When start and end parse to integers [a] and [b] with
    -(2^53-1) <= a and b <= 2^53-1, and some integer [i] in [a, b] has a
    decimal representation equal to the password, the handler finishes
    (within b - a + 2 loop tests) and writes the 'found' message in green. *)
Theorem C1_found_safe (pw s e : string) (a b : Z) :
  js_parseInt s = Integral a -> js_parseInt e = Integral b ->
  - (2 ^ 53 - 1) <= a -> b <= 2 ^ 53 - 1 ->
  (exists i, a <= i <= b /\ Z_to_dec i = pw) ->
  check_handler (S (Z.to_nat (b - a + 1))) pw s e = Some found_result.
Proof.
  intros Hs He Ha Hb Hex.
  destruct (check_handler_safe pw s e a b Hs He Ha Hb) as [found [Hc Hf]].
  rewrite Hc. apply Hf in Hex. rewrite Hex. reflexivity.
Qed.

Lemma C1_found_safe_witness :
  check_handler 11 "5" "1" "10" = Some found_result.
Proof.
  apply (C1_found_safe "5" "1" "10" 1 10);
    [vm_compute; reflexivity | vm_compute; reflexivity | lia | lia |].
  exists 5. split; [lia | vm_compute; reflexivity].
Defined.

(** C1 (counterexample).  start = "9007199254740992" (2^53), end =
    "9007199254740994" (2^53 + 2) and password "9007199254740994": the
    integer 2^53 + 2 of the range prints as the password, yet [i++] at 2^53
    rounds back to 2^53, so the handler never writes the 'found' message. *)
Lemma C1_counterexample :
  js_parseInt "9007199254740992" = Integral (2 ^ 53) /\
  js_parseInt "9007199254740994" = Integral (2 ^ 53 + 2) /\
  (exists i, 2 ^ 53 <= i <= 2 ^ 53 + 2 /\
     js_toString (Integral i) = "9007199254740994") /\
  ~ handler_writes "9007199254740994" "9007199254740992" "9007199254740994"
      found_result.
Proof.
  split; [exact parse_2p53|]. split; [exact parse_2p53_plus2|]. split.
  - exists (2 ^ 53 + 2). split; [lia | vm_compute; reflexivity].
  - intros [fuel Hf]. rewrite handler_stuck_2p53 in Hf; [discriminate|].
    vm_compute. discriminate.
Qed.

(** C2 (amended).  Under the same bounds, when no integer of [a, b] has a
    decimal representation equal to the password, the handler finishes and
    writes the 'not found' message in red. *)
Theorem C2_not_found_safe (pw s e : string) (a b : Z) :
  js_parseInt s = Integral a -> js_parseInt e = Integral b ->
  - (2 ^ 53 - 1) <= a -> b <= 2 ^ 53 - 1 ->
  ~ (exists i, a <= i <= b /\ Z_to_dec i = pw) ->
  check_handler (S (Z.to_nat (b - a + 1))) pw s e = Some not_found_result.
Proof.
  intros Hs He Ha Hb Hno.
  destruct (check_handler_safe pw s e a b Hs He Ha Hb) as [found [Hc Hf]].
  rewrite Hc. destruct found; [|reflexivity].
  exfalso. apply Hno, Hf. reflexivity.
Qed.

Lemma C2_not_found_safe_witness :
  check_handler 11 "05" "1" "10" = Some not_found_result.
Proof.
  apply (C2_not_found_safe "05" "1" "10" 1 10);
    [vm_compute; reflexivity | vm_compute; reflexivity | lia | lia |].
  intros [i [Hi Hd]].
  assert (i = 1 \/ i = 2 \/ i = 3 \/ i = 4 \/ i = 5 \/ i = 6 \/ i = 7 \/ i = 8
          \/ i = 9 \/ i = 10) as Hc by lia.
  repeat (destruct Hc as [Hc|Hc]; [subst i; vm_compute in Hd; discriminate|]).
  all: subst i; vm_compute in Hd; discriminate.
Defined.

(** C2 (counterexample).  On the range [2^53, 2^53 + 2] no integer prints
    as "abc", yet the handler never writes the 'not found' message. *)
Lemma C2_counterexample :
  js_parseInt "9007199254740992" = Integral (2 ^ 53) /\
  js_parseInt "9007199254740994" = Integral (2 ^ 53 + 2) /\
  ~ (exists i, 2 ^ 53 <= i <= 2 ^ 53 + 2 /\ js_toString (Integral i) = "abc") /\
  ~ handler_writes "abc" "9007199254740992" "9007199254740994" not_found_result.
Proof.
  split; [exact parse_2p53|]. split; [exact parse_2p53_plus2|]. split.
  - intros [i [Hi Hd]].
    assert (i = 2 ^ 53 \/ i = 2 ^ 53 + 1 \/ i = 2 ^ 53 + 2) as Hc by lia.
    repeat (destruct Hc as [Hc|Hc]; [subst i; vm_compute in Hd; discriminate|]).
  all: subst i; vm_compute in Hd; discriminate.
  - intros [fuel Hf]. rewrite handler_stuck_2p53 in Hf; [discriminate|].
    vm_compute. discriminate.
Qed.

(** C3.  When parseInt returns NaN for start or for end, the handler writes
    "Invalid range" in red whatever the password, and it does so with no
    fuel at all: the scan is never entered. *)
Theorem C3_invalid_range (pw s e : string) :
  is_nan (js_parseInt s) = true \/ is_nan (js_parseInt e) = true ->
  forall fuel, check_handler fuel pw s e = Some invalid_range_result.
Proof.
  intros Hnan fuel. unfold check_handler.
  destruct Hnan as [H|H]; rewrite H; [reflexivity|].
  rewrite orb_true_r. reflexivity.
Qed.

Lemma C3_invalid_range_witness :
  check_handler 0 "5" "a" "10" = Some invalid_range_result.
Proof.
  apply C3_invalid_range. left. vm_compute. reflexivity.
Defined.

(** C6 (amended).  For -(2^53-1) <= a and b <= 2^53-1 the early-exit scan
    from [a] to [b] finishes within b - a + 2 loop tests and its outcome is
    the declarative check [spec_in_range]. *)
Theorem C6_scan_refines_membership (pw : string) (a b : Z) :
  - (2 ^ 53 - 1) <= a -> b <= 2 ^ 53 - 1 ->
  exists found,
    scan (S (Z.to_nat (b - a + 1))) pw (Integral a) (Integral b) = Some found /\
    (found = true <-> spec_in_range pw a b).
Proof.
  intros Ha Hb. apply scan_safe; [exact Ha | exact Hb |].
  destruct (Z_le_gt_dec 0 (b - a + 1)).
  - rewrite Z2Nat.id; lia.
  - lia.
Qed.

Lemma C6_scan_refines_membership_witness :
  exists found,
    scan 11 "7" (Integral 1) (Integral 10) = Some found /\
    (found = true <-> spec_in_range "7" 1 10).
Proof.
  apply (C6_scan_refines_membership "7" 1 10); lia.
Defined.

(** C6 (counterexample).  On [2^53, 2^53 + 2] the declarative check holds
    for "9007199254740994" but the scan produces no outcome at any fuel. *)
Lemma C6_counterexample :
  spec_in_range "9007199254740994" (2 ^ 53) (2 ^ 53 + 2) /\
  forall fuel,
    scan fuel "9007199254740994" (Integral (2 ^ 53)) (Integral (2 ^ 53 + 2)) = None.
Proof.
  split.
  - exists (2 ^ 53 + 2). split; [lia | vm_compute; reflexivity].
  - intros fuel. apply scan_stuck_2p53; [lia|]. vm_compute. discriminate.
Qed.

(** C7 (amended).  When start and end parse to integers [a] and [b] with
    -(2^53-1) <= a and b <= 2^53-1, the handler finishes within b - a + 2
    evaluations of the loop test, i.e. at most b - a + 1 iterations. *)
Theorem C7_terminates_safe (pw s e : string) (a b : Z) :
  js_parseInt s = Integral a -> js_parseInt e = Integral b ->
  - (2 ^ 53 - 1) <= a -> b <= 2 ^ 53 - 1 ->
  exists r, check_handler (S (Z.to_nat (b - a + 1))) pw s e = Some r.
Proof.
  intros Hs He Ha Hb.
  destruct (check_handler_safe pw s e a b Hs He Ha Hb) as [found [Hc _]].
  eexists. exact Hc.
Qed.

Lemma C7_terminates_safe_witness :
  exists r, check_handler 102 "x" "-50" "50" = Some r.
Proof.
  apply (C7_terminates_safe "x" "-50" "50" (-50) 50);
    [vm_compute; reflexivity | vm_compute; reflexivity | lia | lia].
Defined.

(** C7 (counterexample).  start = 2^53, end = 2^53 + 2, password "x": both
    bounds parse as integers but the loop never ends. *)
Lemma C7_counterexample :
  js_parseInt "9007199254740992" = Integral (2 ^ 53) /\
  js_parseInt "9007199254740994" = Integral (2 ^ 53 + 2) /\
  forall fuel, check_handler fuel "x" "9007199254740992" "9007199254740994" = None.
Proof.
  split; [exact parse_2p53|]. split; [exact parse_2p53_plus2|].
  intros fuel. apply handler_stuck_2p53. vm_compute. discriminate.
Qed.

(** C8.  When start and end parse to integers with start > end, the first
    loop test fails and the handler writes 'not found' in red, for every
    password. *)
Theorem C8_empty_range (pw s e : string) (a b : Z) :
  js_parseInt s = Integral a -> js_parseInt e = Integral b -> b < a ->
  forall fuel, check_handler (S fuel) pw s e = Some not_found_result.
Proof.
  intros Hs He Hab fuel. unfold check_handler. rewrite Hs, He.
  cbn [is_nan orb scan js_le].
  replace (a <=? b) with false by (symmetry; apply Z.leb_gt; exact Hab).
  reflexivity.
Qed.

Lemma C8_empty_range_witness :
  check_handler 1 "5" "10" "1" = Some not_found_result.
Proof.
  apply (C8_empty_range "5" "10" "1" 10 1);
    [vm_compute; reflexivity | vm_compute; reflexivity | lia].
Defined.

(** C9.  Every result the handler writes is one of the three message/color
    pairs; the color is green exactly for the 'found' message, and both
    "Invalid range" and 'not found' are red. *)
Theorem C9_output_pairs (fuel : nat) (pw s e : string) (r : result) :
  check_handler fuel pw s e = Some r ->
  (r = invalid_range_result \/ r = found_result \/ r = not_found_result) /\
  (color r = "green" <-> textContent r = found_msg) /\
  (textContent r = invalid_range_msg -> color r = "red") /\
  (textContent r = not_found_msg -> color r = "red").
Proof.
  unfold check_handler. intros H.
  assert (Hr : r = invalid_range_result \/ r = found_result \/ r = not_found_result).
  { destruct (is_nan _ || is_nan _).
    - injection H as <-. now left.
    - destruct (scan fuel pw _ _) as [[|]|]; try discriminate;
        injection H as <-; tauto. }
  split; [exact Hr|].
  destruct Hr as [-> | [-> | ->]]; cbn; repeat split; intros Hx; try reflexivity; discriminate.
Qed.

Lemma C9_output_pairs_witness :
  check_handler 3 "5" "5" "6" = Some found_result /\
  color found_result = "green".
Proof.
  assert (H : check_handler 3 "5" "5" "6" = Some found_result)
    by (vm_compute; reflexivity).
  split; [exact H|].
  apply (proj2 (proj1 (proj2 (C9_output_pairs 3 "5" "5" "6" found_result H)))).
  reflexivity.
Defined.

(** C10.  Two runs of the handler on the same password, start and end
    values that both finish write the same message and color. *)
Theorem C10_deterministic (f1 f2 : nat) (pw s e : string) (r1 r2 : result) :
  check_handler f1 pw s e = Some r1 -> check_handler f2 pw s e = Some r2 -> r1 = r2.
Proof. apply check_handler_det. Qed.

Lemma C10_deterministic_witness : found_result = found_result.
Proof.
  apply (C10_deterministic 8 20 "7" "1" "10"); vm_compute; reflexivity.
Defined.

(** C4 (amended).  The handler writes "Invalid range" exactly when parseInt
    reads no digit from start or from end: after leading white space, an
    optional sign and an optional 0x/0X prefix (which selects base 16), the
    longest prefix of digits is read and the rest of the text is ignored.
    A well-formed base-10 integer string is read at its base-10 value,
    rounded to the nearest double (exact below 2^53 in magnitude). *)
Theorem C4_parseInt_lenient :
  (forall pw s e, handler_writes pw s e invalid_range_result <->
     snd (parseInt_digits s) = [] \/ snd (parseInt_digits e) = []) /\
  (forall s, spec_well_formed_dec s = true ->
     js_parseInt s = round_int (spec_dec_value s)).
Proof.
  split.
  - intros pw s e. rewrite handler_invalid_iff, !js_parseInt_nan. reflexivity.
  - exact parseInt_well_formed.
Qed.

Lemma C4_parseInt_lenient_witness :
  js_parseInt "-42" = round_int (-42) /\
  (handler_writes "5" " +x1" "10" invalid_range_result).
Proof.
  split.
  - exact (proj2 C4_parseInt_lenient "-42" eq_refl).
  - apply (proj2 (proj1 C4_parseInt_lenient "5" " +x1" "10")).
    left. vm_compute. reflexivity.
Defined.

(** C4 (counterexample).  "1abc" is not a well-formed integer string, yet
    it does not trigger "Invalid range": parseInt reads it as 1 (and with
    end = "10", password "5" the handler reports 'found').  "0x10" is read
    in base 16, as 16. *)
Lemma C4_counterexample :
  spec_well_formed_dec "1abc" = false /\
  js_parseInt "1abc" = Integral 1 /\
  ~ handler_writes "5" "1abc" "10" invalid_range_result /\
  check_handler 11 "5" "1abc" "10" = Some found_result /\
  spec_well_formed_dec "0x10" = false /\
  js_parseInt "0x10" = Integral 16.
Proof.
  split; [reflexivity|]. split; [vm_compute; reflexivity|]. split.
  - rewrite handler_invalid_iff. vm_compute. intros [H|H]; discriminate.
  - split; [vm_compute; reflexivity|]. split; [reflexivity|].
    vm_compute. reflexivity.
Qed.

(** C5 (amended).  For a password that starts with '0' and has more than
    one character: no number prints as it (toString never produces a
    leading zero); every run on a valid range that finishes writes 'not
    found' in red; and the run finishes whenever -(2^53-1) <= start and
    end <= 2^53-1. *)
Theorem C5_leading_zero (pw r : string) :
  pw = String "0" r -> r <> EmptyString ->
  (forall x, js_toString x <> pw) /\
  (forall fuel s e res,
     is_nan (js_parseInt s) = false -> is_nan (js_parseInt e) = false ->
     check_handler fuel pw s e = Some res -> res = not_found_result) /\
  (forall s e a b,
     js_parseInt s = Integral a -> js_parseInt e = Integral b ->
     - (2 ^ 53 - 1) <= a -> b <= 2 ^ 53 - 1 ->
     check_handler (S (Z.to_nat (b - a + 1))) pw s e = Some not_found_result).
Proof.
  intros Hpw Hr.
  assert (Hnot : forall x, js_toString x <> pw).
  { intros x Hx. subst pw. apply Hr. exact (js_toString_no_leading_zero x r Hx). }
  split; [exact Hnot|]. split.
  - intros fuel s e res Hs He H. unfold check_handler in H. rewrite Hs, He in H.
    cbn [orb] in H.
    destruct (scan fuel pw _ _) as [[|]|] eqn:Hscan; try discriminate.
    + exfalso. exact (scan_never_true pw Hnot _ _ _ Hscan).
    + injection H as <-. reflexivity.
  - intros s e a b Hs He Ha Hb.
    destruct (check_handler_safe pw s e a b Hs He Ha Hb) as [found [Hc Hf]].
    rewrite Hc. destruct found; [|reflexivity].
    exfalso. destruct (proj1 Hf eq_refl) as [j [Hj Hd]].
    apply (Hnot (Integral j)). rewrite js_toString_safe by lia. exact Hd.
Qed.

Lemma C5_leading_zero_witness :
  check_handler 11 "05" "1" "10" = Some not_found_result.
Proof.
  destruct (C5_leading_zero "05" "5" eq_refl ltac:(discriminate)) as [_ [_ H]].
  apply (H "1" "10" 1 10); [vm_compute; reflexivity | vm_compute; reflexivity | lia | lia].
Defined.

(** C5 (counterexample).  Password "05" on start = 2^53, end = 2^53 + 2:
    the range is valid but the handler never writes 'not found'. *)
Lemma C5_counterexample :
  js_parseInt "9007199254740992" = Integral (2 ^ 53) /\
  js_parseInt "9007199254740994" = Integral (2 ^ 53 + 2) /\
  ~ handler_writes "05" "9007199254740992" "9007199254740994" not_found_result.
Proof.
  split; [exact parse_2p53|]. split; [exact parse_2p53_plus2|].
  intros [fuel Hf]. rewrite handler_stuck_2p53 in Hf; [discriminate|].
  vm_compute. discriminate.
Qed.

(** ** Further properties of the handler *)

Lemma trim_start_ws_prefix (w s : string) :
  forallb is_ws (list_ascii_of_string w) = true -> trim_start (w ++ s) = trim_start s.
Proof.
  induction w as [|c w IH]; intros Hw; [reflexivity|].
  simpl in Hw. apply andb_prop in Hw as [Hc Hw]. simpl. rewrite Hc. apply IH, Hw.
Qed.

Lemma trim_start_all_ws (w : string) :
  forallb is_ws (list_ascii_of_string w) = true -> trim_start w = EmptyString.
Proof.
  induction w as [|c w IH]; intros Hw; [reflexivity|].
  simpl in Hw. apply andb_prop in Hw as [Hc Hw]. simpl. rewrite Hc. apply IH, Hw.
Qed.

Lemma parseInt_ws_prefix (w s : string) :
  forallb is_ws (list_ascii_of_string w) = true -> js_parseInt (w ++ s) = js_parseInt s.
Proof.
  intros Hw. unfold js_parseInt, parseInt_digits. rewrite trim_start_ws_prefix by exact Hw.
  reflexivity.
Qed.

(** X1.  White space typed before start or before end does not change what
    the handler does. *)
Theorem X1_bounds_leading_ws (w pw s e : string) (fuel : nat) :
  forallb is_ws (list_ascii_of_string w) = true ->
  check_handler fuel pw (w ++ s) e = check_handler fuel pw s e /\
  check_handler fuel pw s (w ++ e) = check_handler fuel pw s e.
Proof.
  intros Hw. unfold check_handler. rewrite !parseInt_ws_prefix by exact Hw. split; reflexivity.
Qed.

Lemma X1_bounds_leading_ws_witness :
  check_handler 11 "5" "  1" "10" = check_handler 11 "5" "1" "10" /\
  check_handler 11 "5" "1" "  10" = check_handler 11 "5" "1" "10".
Proof.
  apply (X1_bounds_leading_ws "  " "5" "1" "10" 11). reflexivity.
Defined.

(** X2.  A start or end field that is empty or holds only white space makes
    the handler write "Invalid range" in red, whatever the password. *)
Theorem X2_blank_bound_invalid (w pw other : string) (fuel : nat) :
  forallb is_ws (list_ascii_of_string w) = true ->
  check_handler fuel pw w other = Some invalid_range_result /\
  check_handler fuel pw other w = Some invalid_range_result.
Proof.
  intros Hw.
  assert (Hn : js_parseInt w = NaN).
  { unfold js_parseInt, parseInt_digits. rewrite trim_start_all_ws by exact Hw. reflexivity. }
  unfold check_handler. rewrite Hn. cbn [is_nan orb]. rewrite orb_true_r.
  split; reflexivity.
Qed.

Lemma X2_blank_bound_invalid_witness :
  check_handler 0 "5" "" "10" = Some invalid_range_result /\
  check_handler 0 "5" "10" " " = Some invalid_range_result.
Proof.
  split.
  - apply (X2_blank_bound_invalid "" "5" "10" 0). reflexivity.
  - apply (X2_blank_bound_invalid " " "5" "10" 0). reflexivity.
Defined.

Lemma non_digit_value (c : ascii) : is_dec_digit c = false -> digit_value 10 c = None.
Proof.
  unfold is_dec_digit, digit_value. intros Hc. cbv zeta.
  set (n := nat_of_ascii c) in *.
  destruct ((48 <=? Z.of_nat n) && (Z.of_nat n <=? 57)) eqn:H1.
  - apply andb_prop in H1 as [H1 H2]. apply Z.leb_le in H1, H2.
    replace ((48 <=? n)%nat && (n <=? 57)%nat) with true in Hc; [discriminate|].
    symmetry. apply andb_true_intro. split; apply Nat.leb_le; lia.
  - destruct ((97 <=? Z.of_nat n) && (Z.of_nat n <=? 122)) eqn:H2.
    + apply andb_prop in H2 as [H2 _]. apply Z.leb_le in H2.
      replace (Z.of_nat n - 87 <? 10) with false by (symmetry; apply Z.ltb_ge; lia).
      reflexivity.
    + destruct ((65 <=? Z.of_nat n) && (Z.of_nat n <=? 90)) eqn:H3; [|reflexivity].
      apply andb_prop in H3 as [H3 _]. apply Z.leb_le in H3.
      replace (Z.of_nat n - 55 <? 10) with false by (symmetry; apply Z.ltb_ge; lia).
      reflexivity.
Qed.

Lemma take_digits_app_stop (t rest : string) (c : ascii) :
  all_dec_digits t = true -> is_dec_digit c = false ->
  take_digits 10 (t ++ String c rest) = take_digits 10 t.
Proof.
  intros Ht Hc. induction t as [|c0 t IH].
  - simpl. rewrite non_digit_value by exact Hc. reflexivity.
  - simpl in Ht. apply andb_prop in Ht as [Hc0 Ht].
    destruct (dec_digit_facts c0 Hc0) as [_ [_ [_ [_ [_ Hv]]]]].
    simpl. rewrite Hv, IH by exact Ht. reflexivity.
Qed.

(** A string starting with a decimal digit: no white space and no sign are
    skipped, and base 10 is used unless it starts with "0x" or "0X". *)
Lemma parseInt_digits_digit_start (c0 : ascii) (r : string) :
  is_dec_digit c0 = true ->
  strip_hex_prefix (String c0 r) = (10, String c0 r) ->
  parseInt_digits (String c0 r) = (1, 10, take_digits 10 (String c0 r)).
Proof.
  intros Hc0 Hh. destruct (dec_digit_facts c0 Hc0) as [Hws [Hm [Hp _]]].
  unfold parseInt_digits. cbn [trim_start]. rewrite Hws. cbn [strip_sign].
  rewrite Hm, Hp, Hh. reflexivity.
Qed.

Lemma parseInt_trailing_text (t rest : string) (c : ascii) :
  spec_unsigned_dec t = true -> is_dec_digit c = false ->
  ~ (t = "0" /\ (c = "x"%char \/ c = "X"%char)) ->
  js_parseInt (t ++ String c rest) = js_parseInt t.
Proof.
  intros Ht Hc Hx. destruct t as [|c0 r0]; [discriminate|].
  pose proof Ht as Ht'. simpl in Ht'. apply andb_prop in Ht' as [Hc0 Hr0].
  destruct (unsigned_dec_read _ Ht) as [Hh _].
  assert (Hh' : strip_hex_prefix (String c0 r0 ++ String c rest)
                = (10, String c0 r0 ++ String c rest)).
  { destruct r0 as [|c1 r1].
    - simpl. destruct (Ascii.eqb_spec c0 "0") as [->|]; [|reflexivity].
      destruct (Ascii.eqb_spec c "x"); [exfalso; apply Hx; tauto|].
      destruct (Ascii.eqb_spec c "X"); [exfalso; apply Hx; tauto|].
      reflexivity.
    - simpl in Hr0. apply andb_prop in Hr0 as [Hc1 _].
      destruct (dec_digit_facts c1 Hc1) as [_ [_ [_ [Hx1 [HX1 _]]]]].
      simpl. rewrite Hx1, HX1, andb_false_r. reflexivity. }
  unfold js_parseInt.
  change (String c0 r0 ++ String c rest) with (String c0 (r0 ++ String c rest)) in Hh' |- *.
  rewrite (parseInt_digits_digit_start c0 _ Hc0 Hh').
  rewrite (parseInt_digits_digit_start c0 _ Hc0 Hh).
  change (String c0 (r0 ++ String c rest)) with (String c0 r0 ++ String c rest).
  rewrite take_digits_app_stop by first [exact Ht | exact Hc].
  reflexivity.
Qed.

(** X3.  Text typed after the digits of a bound (from the first character
    that is not a decimal digit on) is ignored: "12abc" acts as "12".  The
    one exception is a bound "0" followed by "x" or "X", which parseInt reads
    as a hexadecimal prefix. *)
Theorem X3_bounds_trailing_text (t rest pw other : string) (c : ascii) (fuel : nat) :
  spec_unsigned_dec t = true -> is_dec_digit c = false ->
  ~ (t = "0" /\ (c = "x"%char \/ c = "X"%char)) ->
  check_handler fuel pw (t ++ String c rest) other = check_handler fuel pw t other /\
  check_handler fuel pw other (t ++ String c rest) = check_handler fuel pw other t.
Proof.
  intros Ht Hc Hx. unfold check_handler.
  rewrite (parseInt_trailing_text t rest c Ht Hc Hx). split; reflexivity.
Qed.

Lemma X3_bounds_trailing_text_witness :
  check_handler 11 "5" "1abc" "10" = check_handler 11 "5" "1" "10" /\
  check_handler 11 "5" "1" "10 " = check_handler 11 "5" "1" "10".
Proof.
  split.
  - apply (X3_bounds_trailing_text "1" "bc" "5" "10" "a" 11);
      [reflexivity | reflexivity | intros [H _]; discriminate].
  - apply (X3_bounds_trailing_text "10" "" "5" "1" " " 11);
      [reflexivity | reflexivity | intros [H _]; discriminate].
Defined.

(** X4.  Leading zeros typed in a bound are ignored ("007" acts as "7"),
    unlike leading zeros in the password. *)
Theorem X4_bounds_leading_zeros (t pw other : string) (fuel : nat) :
  spec_unsigned_dec t = true ->
  check_handler fuel pw (String "0" t) other = check_handler fuel pw t other /\
  check_handler fuel pw other (String "0" t) = check_handler fuel pw other t.
Proof.
  intros Ht.
  assert (Hp : js_parseInt (String "0" t) = js_parseInt t).
  { assert (H0 : spec_unsigned_dec (String "0" t) = true).
    { destruct t; [discriminate|]. simpl. exact Ht. }
    rewrite (parseInt_well_formed (String "0" t)), (parseInt_well_formed t).
    - destruct t as [|c r]; [discriminate|]. simpl in Ht.
      apply andb_prop in Ht as [Hc _].
      destruct (dec_digit_facts c Hc) as [_ [Hm _]].
      simpl. rewrite Hm. reflexivity.
    - destruct t as [|c r]; [discriminate|]. simpl in Ht |- *.
      pose proof Ht as Ht'. apply andb_prop in Ht' as [Hc _].
      destruct (dec_digit_facts c Hc) as [_ [Hm _]]. rewrite Hm. simpl. exact Ht.
    - exact H0. }
  unfold check_handler. rewrite Hp. split; reflexivity.
Qed.

Lemma X4_bounds_leading_zeros_witness :
  check_handler 11 "7" "001" "010" = check_handler 11 "7" "01" "010" /\
  check_handler 11 "7" "01" "010" = check_handler 11 "7" "01" "10".
Proof.
  split.
  - apply (X4_bounds_leading_zeros "01" "7" "010" 11). reflexivity.
  - apply (X4_bounds_leading_zeros "10" "7" "01" 11). reflexivity.
Defined.

Lemma digits_le_range (f : nat) : forall z, 0 <= z ->
  Forall (fun d => 0 <= d <= 9) (digits_le f z).
Proof.
  induction f as [|f IH]; intros z Hz; [constructor|].
  cbn [digits_le]. destruct (Z.ltb_spec z 10).
  - repeat constructor; lia.
  - constructor.
    + pose proof (Z.mod_pos_bound z 10). lia.
    + apply IH. apply Z.div_pos; lia.
Qed.

Lemma digits_le_value (f : nat) : forall z, 0 <= z < 10 ^ Z.of_nat (S f) ->
  fold_left (fun a d => a * 10 + d) (rev (digits_le (S f) z)) 0 = z.
Proof.
  induction f as [|f IH]; intros z Hz.
  - simpl in Hz. simpl. replace (z <? 10) with true by (symmetry; apply Z.ltb_lt; lia).
    reflexivity.
  - change (digits_le (S (S f)) z) with
      (if z <? 10 then [z] else (z mod 10) :: digits_le (S f) (z / 10)).
    destruct (Z.ltb_spec z 10); [reflexivity|].
    cbn [rev]. rewrite fold_left_app. cbn [fold_left].
    rewrite Nat2Z.inj_succ, Z.pow_succ_r in Hz by lia.
    rewrite IH.
    + pose proof (Z.div_mod z 10). lia.
    + split; [apply Z.div_pos; lia|]. apply Z.div_lt_upper_bound; lia.
Qed.

Lemma digits_of_bound (z : Z) :
  0 <= z -> 0 <= z < 10 ^ Z.of_nat (S (Z.to_nat (Z.log2 z))).
Proof.
  intros Hz. split; [lia|]. rewrite Nat2Z.inj_succ, Z2Nat.id by apply Z.log2_nonneg.
  destruct (Z.eq_dec z 0) as [->|Hnz]; [simpl; lia|].
  apply Z.lt_le_trans with (2 ^ Z.succ (Z.log2 z)).
  - apply Z.log2_spec; lia.
  - apply Z.pow_le_mono_l. lia.
Qed.

Lemma digit_char_value (d : Z) :
  0 <= d <= 9 ->
  is_dec_digit (digit_char d) = true /\
  Z.of_nat (nat_of_ascii (digit_char d)) - 48 = d.
Proof.
  intros Hd. unfold digit_char, is_dec_digit.
  assert (H9 : (Z.to_nat d <= 9)%nat)
    by (change 9%nat with (Z.to_nat 9); apply Z2Nat.inj_le; lia).
  rewrite nat_ascii_embedding by lia. split.
  - apply andb_true_intro. split; apply Nat.leb_le; lia.
  - rewrite Nat2Z.inj_add, Z2Nat.id by lia. lia.
Qed.

Lemma string_of_digits_read (l : list Z) : forall acc,
  Forall (fun d => 0 <= d <= 9) l ->
  all_dec_digits (string_of_digits l) = true /\
  dec_value_acc acc (string_of_digits l) = fold_left (fun a d => a * 10 + d) l acc.
Proof.
  induction l as [|d l IH]; intros acc Hl; [split; reflexivity|].
  inversion Hl as [|? ? Hd Hl']; subst.
  destruct (digit_char_value d Hd) as [Hdig Hval].
  destruct (IH (acc * 10 + d) Hl') as [Ha Hv].
  unfold string_of_digits in *.
  cbn [map string_of_list_ascii all_dec_digits dec_value_acc fold_left].
  rewrite Hdig, Hval. split; [exact Ha|exact Hv].
Qed.

(** The decimal representation of a non-negative integer is an unsigned
    digit string whose base-10 value is the integer. *)
Lemma Z_to_dec_nonneg_read (z : Z) :
  0 <= z ->
  spec_unsigned_dec (string_of_digits (rev (digits_of z))) = true /\
  dec_value_acc 0 (string_of_digits (rev (digits_of z))) = z.
Proof.
  intros Hz. unfold digits_of.
  assert (Hr : Forall (fun d => 0 <= d <= 9) (rev (digits_le (S (Z.to_nat (Z.log2 z))) z)))
    by (apply Forall_rev, digits_le_range; exact Hz).
  destruct (string_of_digits_read _ 0 Hr) as [Ha Hv].
  split.
  - pose proof (digits_of_nonempty z) as Hne. unfold digits_of in Hne.
    destruct (rev (digits_le (S (Z.to_nat (Z.log2 z))) z)) as [|d l] eqn:E.
    + apply (f_equal (@rev Z)) in E. rewrite rev_involutive in E. contradiction.
    + exact Ha.
  - rewrite Hv. apply digits_le_value, digits_of_bound, Hz.
Qed.

(** X5.  Round trip: for every safe integer [z] (|z| < 2^53), parseInt
    applied to the string the loop compares, [z.toString()], gives back
    [z]; typing a printed loop value as a bound selects exactly it. *)
Theorem X5_toString_parseInt_roundtrip (z : Z) :
  Z.abs z < 2 ^ 53 -> js_parseInt (js_toString (Integral z)) = Integral z.
Proof.
  intros Hz. rewrite js_toString_safe by exact Hz.
  assert (Hwf : spec_well_formed_dec (Z_to_dec z) = true /\ spec_dec_value (Z_to_dec z) = z).
  { unfold Z_to_dec, spec_well_formed_dec, spec_dec_value.
    destruct (Z.ltb_spec z 0).
    - destruct (Z_to_dec_nonneg_read (- z) ltac:(lia)) as [Hu Hv].
      change (Ascii.eqb "-" "-") with true. cbv iota. split; [exact Hu|lia].
    - destruct (Z_to_dec_nonneg_read z ltac:(lia)) as [Hu Hv].
      destruct (string_of_digits (rev (digits_of z))) as [|c r] eqn:E; [discriminate|].
      pose proof Hu as Hu'. cbn [spec_unsigned_dec all_dec_digits] in Hu'.
      apply andb_prop in Hu' as [Hc _].
      destruct (dec_digit_facts c Hc) as [_ [Hm _]]. rewrite Hm.
      split; [exact Hu|exact Hv]. }
  destruct Hwf as [Hwf Hv].
  rewrite parseInt_well_formed by exact Hwf. rewrite Hv.
  apply round_int_exact. lia.
Qed.

Lemma X5_toString_parseInt_roundtrip_witness :
  js_parseInt (js_toString (Integral (-9007199254740991))) = Integral (-9007199254740991).
Proof.
  apply X5_toString_parseInt_roundtrip. lia.
Defined.

(** The scan loop, read as a search over the values [start], [start+1],
    ... that [i++] produces. *)
Lemma scan_found_iff (pw : string) (i e : js_number) :
  (exists fuel, scan fuel pw i e = Some true) <->
  exists k, (forall j, (j <= k)%nat -> js_le (Nat.iter j js_incr i) e = true) /\
            js_toString (Nat.iter k js_incr i) = pw.
Proof.
  split.
  - intros [fuel Hs]. revert i Hs.
    induction fuel as [|f IH]; intros i Hs; [discriminate|].
    cbn [scan] in Hs. destruct (js_le i e) eqn:Hle; [|discriminate].
    destruct (String.eqb_spec (js_toString i) pw) as [Heq|Hne].
    + exists O. split; [|exact Heq].
      intros j Hj. replace j with O by lia. exact Hle.
    + destruct (IH _ Hs) as [k [Hall Hk]]. exists (S k). split.
      * intros [|j] Hj; [exact Hle|].
        rewrite Nat.iter_succ_r. apply Hall. lia.
      * rewrite Nat.iter_succ_r. exact Hk.
  - intros [k [Hall Hk]]. revert i Hall Hk.
    induction k as [|k IH]; intros i Hall Hk.
    + exists 1%nat. cbn [scan]. pose proof (Hall O (le_n _)) as Hle.
      cbn [Nat.iter nat_rect] in Hle, Hk. rewrite Hle. rewrite Hk, String.eqb_refl. reflexivity.
    + pose proof (Hall O ltac:(lia)) as Hle. cbn [Nat.iter nat_rect] in Hle.
      destruct (String.eqb (js_toString i) pw) eqn:Heq.
      * exists 1%nat. cbn [scan]. rewrite Hle, Heq. reflexivity.
      * destruct (IH (js_incr i)) as [f Hf].
        -- intros j Hj. rewrite <- Nat.iter_succ_r. apply Hall. lia.
        -- rewrite <- Nat.iter_succ_r. exact Hk.
        -- exists (S f). cbn [scan]. rewrite Hle, Heq. exact Hf.
Qed.


Lemma handler_match_found (o : option bool) :
  match o with
  | Some found => Some (if found then found_result else not_found_result)
  | None => None
  end = Some found_result <-> o = Some true.
Proof.
  destruct o as [[|]|]; split; intros H; try reflexivity; discriminate.
Qed.


Lemma js_le_not_nan (x y : js_number) :
  js_le x y = true -> is_nan x = false /\ is_nan y = false.
Proof.
  destruct x as [|[]|], y as [|[]|]; cbn; intros H; try discriminate; split; reflexivity.
Qed.



(** The shapes of [Number::toString] on non-NaN values. *)
Lemma js_toString_shape (x : js_number) :
  is_nan x = false ->
  js_toString x = "Infinity" \/ js_toString x = "-Infinity" \/ js_toString x = "0" \/
  exists d r, 1 <= d <= 9 /\
    (js_toString x = String (digit_char d) r \/
     js_toString x = String "-" (String (digit_char d) r)).
Proof.
  destruct x as [|[|]|z]; intros Hn; [discriminate| | |].
  - right; left; reflexivity.
  - left; reflexivity.
  - cbn [js_toString]. destruct (Z.eqb_spec z 0); [right; right; left; reflexivity|].
    right; right; right. destruct (Z.ltb_spec z 0).
    + destruct (pos_toString_head (- z) ltac:(lia)) as [d [r [-> Hd]]].
      exists d, r. split; [exact Hd|right; reflexivity].
    + destruct (pos_toString_head z ltac:(lia)) as [d [r [-> Hd]]].
      exists d, r. split; [exact Hd|left; reflexivity].
Qed.

Lemma scan_found_printed (fuel : nat) (pw : string) (i e : js_number) :
  scan fuel pw i e = Some true ->
  exists x, is_nan x = false /\ js_toString x = pw.
Proof.
  intros Hs. destruct (proj1 (scan_found_iff pw i e) (ex_intro _ fuel Hs)) as [k [Hall Hk]].
  exists (Nat.iter k js_incr i). split; [|exact Hk].
  exact (proj1 (js_le_not_nan _ _ (Hall k (le_n _)))).
Qed.

(** X8.  Passwords the loop can never print: an empty password, one whose
    first character is none of a digit, '-' or 'I' (white space, '+', a
    letter, ...), or one made of '-' followed by nothing, '0', or a
    character that is none of a digit or 'I', never gives "Password is
    within range", whatever the bounds. *)
Theorem X8_unprintable_password_never_found (pw s e : string) :
  match pw with
  | EmptyString => True
  | String c r =>
      (is_dec_digit c = false /\ c <> "-"%char /\ c <> "I"%char) \/
      (c = "-"%char /\
       match r with
       | EmptyString => True
       | String c' _ => c' = "0"%char \/ (is_dec_digit c' = false /\ c' <> "I"%char)
       end)
  end ->
  ~ handler_writes pw s e found_result.
Proof.
  intros Hpw [fuel Hh]. unfold check_handler in Hh.
  destruct (is_nan (js_parseInt s) || is_nan (js_parseInt e)); [discriminate Hh|].
  apply handler_match_found in Hh.
  destruct (scan_found_printed _ _ _ _ Hh) as [x [Hx Hxs]]. subst pw.
  destruct (js_toString_shape x Hx) as [H|[H|[H|[d [r [Hd [H|H]]]]]]];
    rewrite H in Hpw.
  - destruct Hpw as [[_ [_ Hi]]|[Hm _]]; [apply Hi; reflexivity|discriminate Hm].
  - destruct Hpw as [[_ [Hm _]]|[_ [Hc|[_ Hi]]]];
      [apply Hm; reflexivity|discriminate Hc|apply Hi; reflexivity].
  - destruct Hpw as [[Hdg _]|[Hm _]]; [discriminate Hdg|discriminate Hm].
  - destruct (digit_char_value d ltac:(lia)) as [Hdg _].
    destruct (dec_digit_facts _ Hdg) as [_ [Hm _]].
    destruct Hpw as [[Hdg' _]|[Hm' _]].
    + rewrite Hdg in Hdg'. discriminate.
    + rewrite Hm' in Hm. discriminate.
  - destruct (digit_char_value d ltac:(lia)) as [Hdg _].
    destruct Hpw as [[_ [Hm _]]|[_ [Hc|[Hdg' _]]]].
    + apply Hm; reflexivity.
    + exact (digit_char_nonzero d Hd Hc).
    + rewrite Hdg in Hdg'. discriminate.
Qed.

Lemma X8_unprintable_password_never_found_witness :
  ~ handler_writes "+5" "1" "9" found_result.
Proof.
  apply X8_unprintable_password_never_found.
  left. split; [reflexivity|]. split; discriminate.
Defined.

(** A double of magnitude at least 2^53 is a 53-bit significand times a
    power of two, below 2^1024. *)
Lemma round_int_repr (y a : Z) :
  round_int y = Integral a -> 2 ^ 53 <= Z.abs a ->
  exists q sh, 2 ^ 52 <= q < 2 ^ 53 /\ 1 <= sh /\ Z.abs a = q * 2 ^ sh /\
               q * 2 ^ sh < 2 ^ 1024.
Proof.
  intros H Ha53. unfold round_int in H.
  destruct (Z.ltb_spec (Z.abs y) (2 ^ 53)) as [Hs|Hy].
  { injection H as <-. lia. }
  set (b := Z.abs y) in *.
  assert (Hlog : 53 <= Z.log2 b).
  { rewrite <- (Z.log2_pow2 53) by lia. apply Z.log2_le_mono. exact Hy. }
  assert (Hb : 2 ^ Z.log2 b <= b < 2 ^ Z.succ (Z.log2 b)) by (apply Z.log2_spec; lia).
  set (sh := Z.log2 b - 52) in *.
  assert (Hsplit : 2 ^ Z.log2 b = 2 ^ 52 * 2 ^ sh).
  { rewrite <- Z.pow_add_r by lia. f_equal. unfold sh. lia. }
  assert (Hsplit' : 2 ^ Z.succ (Z.log2 b) = 2 ^ 53 * 2 ^ sh).
  { rewrite <- Z.pow_add_r by lia. f_equal. unfold sh. lia. }
  assert (Hpos : 0 < 2 ^ sh) by (apply Z.pow_pos_nonneg; unfold sh; lia).
  assert (Hq : 2 ^ 52 <= b / 2 ^ sh < 2 ^ 53).
  { split.
    - apply Z.div_le_lower_bound; [lia|]. rewrite Z.mul_comm, <- Hsplit. lia.
    - apply Z.div_lt_upper_bound; [lia|]. rewrite Z.mul_comm, <- Hsplit'. lia. }
  set (q := b / 2 ^ sh) in *.
  match type of H with context [if ?c then q + 1 else q] =>
    set (q' := if c then q + 1 else q) in H end.
  assert (Hq' : q <= q' <= q + 1) by (unfold q'; destruct (_ || _); lia).
  destruct (Z.leb_spec (2 ^ 1024) (q' * 2 ^ sh)) as [Hinf|Hfin]; [discriminate H|].
  injection H as Hav.
  assert (Habs : Z.abs a = q' * 2 ^ sh).
  { assert (0 <= q' * 2 ^ sh) by (apply Z.mul_nonneg_nonneg; lia).
    subst a. rewrite Z.abs_mul.
    destruct (Z.lt_trichotomy y 0) as [Hn|[Hz|Hp]].
    - rewrite Z.sgn_neg by exact Hn. lia.
    - subst y. cbn in b. unfold b in Hy. cbn in Hy. lia.
    - rewrite Z.sgn_pos by exact Hp. lia. }
  rewrite Habs.
  destruct (Z.eq_dec q' (2 ^ 53)) as [Heq|Hne].
  - exists (2 ^ 52), (sh + 1). split; [lia|]. split; [unfold sh; lia|].
    assert (E : q' * 2 ^ sh = 2 ^ 52 * 2 ^ (sh + 1)).
    { rewrite Heq, Z.pow_add_r by (unfold sh; lia).
      change (2 ^ 53) with (2 ^ 52 * 2). lia. }
    rewrite <- E. split; [reflexivity|exact Hfin].
  - exists q', sh. split; [lia|]. split; [unfold sh; lia|]. split; [reflexivity|exact Hfin].
Qed.

(** Above 2^54, adding one to a double rounds back to it. *)
Lemma round_int_incr_stuck (q sh : Z) :
  2 ^ 52 <= q < 2 ^ 53 -> 2 <= sh -> q * 2 ^ sh < 2 ^ 1024 ->
  round_int (q * 2 ^ sh + 1) = Integral (q * 2 ^ sh).
Proof.
  intros Hq Hsh Hv.
  assert (Hpos : 4 <= 2 ^ sh).
  { change 4 with (2 ^ 2). apply Z.pow_le_mono_r; lia. }
  assert (Hlow : 2 ^ 53 <= q * 2 ^ sh) by nia.
  unfold round_int.
  rewrite Z.abs_eq by lia.
  replace (q * 2 ^ sh + 1 <? 2 ^ 53) with false by (symmetry; apply Z.ltb_ge; lia).
  assert (Hlog : Z.log2 (q * 2 ^ sh + 1) = 52 + sh).
  { apply Z.log2_unique; [lia|]. rewrite Z.pow_succ_r, !Z.pow_add_r by lia.
    split; nia. }
  rewrite Hlog. replace (52 + sh - 52) with sh by lia.
  assert (Hd : (q * 2 ^ sh + 1) / 2 ^ sh = q).
  { symmetry. apply Z.div_unique with 1; lia. }
  assert (Hm : (q * 2 ^ sh + 1) mod 2 ^ sh = 1).
  { symmetry. apply Z.mod_unique with q; lia. }
  rewrite Hd, Hm.
  assert (Hh : 2 <= 2 ^ (sh - 1)).
  { change 2 with (2 ^ 1) at 1. apply Z.pow_le_mono_r; lia. }
  replace (2 ^ (sh - 1) <? 1) with false by (symmetry; apply Z.ltb_ge; lia).
  replace (1 =? 2 ^ (sh - 1)) with false by (symmetry; apply Z.eqb_neq; lia).
  cbn [orb andb].
  replace (2 ^ 1024 <=? q * 2 ^ sh) with false by (symmetry; apply Z.leb_gt; lia).
  rewrite Z.sgn_pos by lia. f_equal. lia.
Qed.

(** Below -2^54, adding one to a double rounds back to it. *)
Lemma round_int_decr_stuck (q sh : Z) :
  2 ^ 52 <= q < 2 ^ 53 -> 2 <= sh -> q * 2 ^ sh < 2 ^ 1024 ->
  round_int (- (q * 2 ^ sh) + 1) = Integral (- (q * 2 ^ sh)).
Proof.
  intros Hq Hsh Hv.
  assert (Hpos : 4 <= 2 ^ sh).
  { change 4 with (2 ^ 2). apply Z.pow_le_mono_r; lia. }
  assert (Hlow : 2 ^ 54 <= q * 2 ^ sh).
  { apply Z.le_trans with (2 ^ 52 * 2 ^ 2); [lia|].
    apply Z.mul_le_mono_nonneg; lia. }
  unfold round_int.
  replace (- (q * 2 ^ sh) + 1) with (- (q * 2 ^ sh - 1)) by lia.
  rewrite Z.abs_opp, Z.abs_eq by lia.
  replace (q * 2 ^ sh - 1 <? 2 ^ 53) with false by (symmetry; apply Z.ltb_ge; lia).
  rewrite Z.sgn_opp, Z.sgn_pos by lia.
  destruct (Z.eq_dec q (2 ^ 52)) as [Hq52|Hq52].
  - (* the predecessor has one binary digit less *)
    subst q. set (h := 2 ^ (sh - 2)).
    assert (Hh : 0 < h) by (apply Z.pow_pos_nonneg; lia).
    assert (Esh : 2 ^ sh = 4 * h).
    { unfold h. replace sh with (2 + (sh - 2)) at 1 by lia.
      rewrite Z.pow_add_r by lia. reflexivity. }
    assert (Esh1 : 2 ^ (sh - 1) = 2 * h).
    { unfold h. replace (sh - 1) with (1 + (sh - 2)) by lia.
      rewrite Z.pow_add_r by lia. reflexivity. }
    assert (Hlog : Z.log2 (2 ^ 52 * 2 ^ sh - 1) = 51 + sh).
    { apply Z.log2_unique; [lia|].
      rewrite Z.pow_succ_r by lia. rewrite Z.pow_add_r by lia. rewrite Esh.
      change (2 ^ 51) with 2251799813685248. change (2 ^ 52) with 4503599627370496.
      lia. }
    rewrite Hlog. replace (51 + sh - 52) with (sh - 1) by lia.
    replace (sh - 1 - 1) with (sh - 2) by lia. fold h. rewrite Esh1, Esh.
    assert (Hd : (2 ^ 52 * (4 * h) - 1) / (2 * h) = 2 ^ 53 - 1).
    { symmetry. apply Z.div_unique with (2 * h - 1); lia. }
    assert (Hm : (2 ^ 52 * (4 * h) - 1) mod (2 * h) = 2 * h - 1).
    { symmetry. apply Z.mod_unique with (2 ^ 53 - 1); lia. }
    rewrite Hd, Hm.
    replace ((h <? 2 * h - 1) || ((2 * h - 1 =? h) && Z.odd (2 ^ 53 - 1))) with true.
    + replace (2 ^ 1024 <=? (2 ^ 53 - 1 + 1) * (2 * h)) with false.
      * f_equal. lia.
      * symmetry. apply Z.leb_gt. lia.
    + destruct (Z.eq_dec h 1) as [->|Hh1]; [reflexivity|].
      replace (h <? 2 * h - 1) with true by (symmetry; apply Z.ltb_lt; lia). reflexivity.
  - (* same binary length: the remainder is above one half *)
    assert (Hlog : Z.log2 (q * 2 ^ sh - 1) = 52 + sh).
    { apply Z.log2_unique; [lia|]. rewrite Z.pow_succ_r, !Z.pow_add_r by lia.
      split; nia. }
    rewrite Hlog. replace (52 + sh - 52) with sh by lia.
    assert (Hd : (q * 2 ^ sh - 1) / 2 ^ sh = q - 1).
    { symmetry. apply Z.div_unique with (2 ^ sh - 1); lia. }
    assert (Hm : (q * 2 ^ sh - 1) mod 2 ^ sh = 2 ^ sh - 1).
    { symmetry. apply Z.mod_unique with (q - 1); lia. }
    rewrite Hd, Hm.
    assert (Esh1 : 2 ^ sh = 2 * 2 ^ (sh - 1)).
    { replace sh with (1 + (sh - 1)) at 1 by lia. rewrite Z.pow_add_r by lia. reflexivity. }
    replace (2 ^ (sh - 1) <? 2 ^ sh - 1) with true
      by (symmetry; apply Z.ltb_lt; lia).
    cbn [orb].
    replace (2 ^ 1024 <=? (q - 1 + 1) * 2 ^ sh) with false
      by (symmetry; apply Z.leb_gt; nia).
    f_equal. lia.
Qed.

Lemma js_incr_stuck (y a : Z) :
  round_int y = Integral a -> 2 ^ 54 <= Z.abs a -> js_incr (Integral a) = Integral a.
Proof.
  intros H Ha. destruct (round_int_repr y a H ltac:(lia)) as [q [sh [Hq [Hsh [Habs Hv]]]]].
  assert (Hsh2 : 2 <= sh).
  { destruct (Z.eq_dec sh 1) as [->|]; [|lia].
    change (2 ^ 54) with (2 ^ 53 * 2 ^ 1) in Ha. nia. }
  cbn [js_incr]. destruct (Z.abs_spec a) as [[_ Ea]|[_ Ea]].
  - rewrite Ea in Habs. subst a. apply round_int_incr_stuck; assumption.
  - replace a with (- (q * 2 ^ sh)) by lia. apply round_int_decr_stuck; assumption.
Qed.

Lemma scan_stuck (fuel : nat) (pw : string) (a : Z) (e : js_number) :
  js_incr (Integral a) = Integral a -> js_le (Integral a) e = true ->
  js_toString (Integral a) <> pw -> scan fuel pw (Integral a) e = None.
Proof.
  intros Hi Hle Hpw. induction fuel as [|fuel IH]; [reflexivity|].
  cbn [scan]. rewrite Hle.
  destruct (String.eqb_spec (js_toString (Integral a)) pw); [contradiction|].
  rewrite Hi. exact IH.
Qed.

Lemma parseInt_integral_rounded (s : string) (a : Z) :
  js_parseInt s = Integral a -> exists y, round_int y = Integral a.
Proof.
  unfold js_parseInt. destruct (parseInt_digits s) as [[sg R] [|d ds]]; [discriminate|].
  intros H. eexists. exact H.
Qed.

(** X9.  From 2^54 in magnitude, [i++] no longer moves: when the start
    bound parses to an integer [a] with [|a| >= 2^54], [a <= end], and [a]
    does not print as the password, the loop never finishes, whatever the
    fuel. *)
Theorem X9_large_start_diverges (pw s e : string) (a : Z) :
  js_parseInt s = Integral a -> 2 ^ 54 <= Z.abs a ->
  js_le (Integral a) (js_parseInt e) = true ->
  js_toString (Integral a) <> pw ->
  forall fuel, check_handler fuel pw s e = None.
Proof.
  intros Hs Ha Hle Hpw fuel.
  destruct (parseInt_integral_rounded s a Hs) as [y Hy].
  unfold check_handler. rewrite Hs.
  rewrite (proj2 (js_le_not_nan _ _ Hle)). cbn [is_nan orb].
  rewrite (scan_stuck fuel pw a _ (js_incr_stuck y a Hy Ha) Hle Hpw). reflexivity.
Qed.

Lemma X9_large_start_diverges_witness :
  (forall fuel, check_handler fuel "x" "18014398509481984" "18014398509481985" = None) /\
  (forall fuel, check_handler fuel "7" "-18014398509481984" "0" = None).
Proof.
  split.
  - apply (X9_large_start_diverges "x" "18014398509481984" "18014398509481985" (2 ^ 54)).
    + vm_compute. reflexivity.
    + lia.
    + vm_compute. reflexivity.
    + vm_compute. discriminate.
  - apply (X9_large_start_diverges "7" "-18014398509481984" "0" (- 2 ^ 54)).
    + vm_compute. reflexivity.
    + lia.
    + vm_compute. reflexivity.
    + vm_compute. discriminate.
Defined.

(** X10.  A start bound too large for a double parses to an infinity, which
    [i++] keeps: when it is [<= end], the handler reports the password as
    within range if it is the infinity's text ("Infinity" or "-Infinity"),
    and otherwise never finishes. *)
Theorem X10_infinite_start (pw s e : string) (neg : bool) :
  js_parseInt s = Infinity neg ->
  js_le (Infinity neg) (js_parseInt e) = true ->
  (pw = js_toString (Infinity neg) -> handler_writes pw s e found_result) /\
  (pw <> js_toString (Infinity neg) -> forall fuel, check_handler fuel pw s e = None).
Proof.
  intros Hs Hle.
  assert (Hn : is_nan (js_parseInt s) || is_nan (js_parseInt e) = false).
  { destruct (js_le_not_nan _ _ Hle) as [_ He]. rewrite Hs, He. reflexivity. }
  split.
  - intros Hpw. exists 1%nat. unfold check_handler. rewrite Hn. cbn [scan].
    rewrite Hs, Hle, <- Hpw, String.eqb_refl. reflexivity.
  - intros Hpw fuel. unfold check_handler. rewrite Hn. rewrite Hs.
    assert (Hsc : scan fuel pw (Infinity neg) (js_parseInt e) = None).
    { induction fuel as [|fuel IH]; [reflexivity|].
      cbn [scan]. rewrite Hle.
      destruct (String.eqb_spec (js_toString (Infinity neg)) pw) as [Heq|_];
        [symmetry in Heq; contradiction|].
      exact IH. }
    rewrite Hsc. reflexivity.
Qed.

Lemma X10_infinite_start_witness :
  handler_writes "-Infinity" "-1000000000000000000000000000000000000000000000000000000000000000000000000000000000000000000000000000000000000000000000000000000000000000000000000000000000000000000000000000000000000000000000000000000000000000000000000000000000000000000000000000000000000000000000000000000000000000000000000000000000000000000000" "0" found_result /\
  (forall fuel, check_handler fuel "-1" "-1000000000000000000000000000000000000000000000000000000000000000000000000000000000000000000000000000000000000000000000000000000000000000000000000000000000000000000000000000000000000000000000000000000000000000000000000000000000000000000000000000000000000000000000000000000000000000000000000000000000000000000000" "0" = None).
Proof.
  split.
  - apply (X10_infinite_start "-Infinity" "-1000000000000000000000000000000000000000000000000000000000000000000000000000000000000000000000000000000000000000000000000000000000000000000000000000000000000000000000000000000000000000000000000000000000000000000000000000000000000000000000000000000000000000000000000000000000000000000000000000000000000000000000" "0" true);
      vm_compute; reflexivity.
  - apply (X10_infinite_start "-1" "-1000000000000000000000000000000000000000000000000000000000000000000000000000000000000000000000000000000000000000000000000000000000000000000000000000000000000000000000000000000000000000000000000000000000000000000000000000000000000000000000000000000000000000000000000000000000000000000000000000000000000000000000" "0" true).
    + vm_compute. reflexivity.
    + vm_compute. reflexivity.
    + vm_compute. discriminate.
Defined.

Lemma parseInt_plus_sign (t : string) :
  match t with
  | EmptyString => True
  | String c _ => is_ws c = false /\ c <> "-"%char /\ c <> "+"%char
  end ->
  js_parseInt (String "+" t) = js_parseInt t.
Proof.
  intros Ht. unfold js_parseInt, parseInt_digits.
  change (trim_start (String "+" t)) with (String "+" t).
  change (strip_sign (String "+" t)) with (1, t).
  destruct t as [|c r]; [reflexivity|].
  destruct Ht as [Hws [Hm Hp]].
  cbn [trim_start]. rewrite Hws. cbn [strip_sign].
  replace (Ascii.eqb c "-") with false by (symmetry; apply Ascii.eqb_neq; exact Hm).
  replace (Ascii.eqb c "+") with false by (symmetry; apply Ascii.eqb_neq; exact Hp).
  reflexivity.
Qed.

(** X11.  A '+' typed before a bound is ignored: "+t" as start or as end
    gives the same result as "t", unless [t] itself starts with white space
    or a sign (then "+t" reads no digits). *)
Theorem X11_bounds_plus_sign (t pw other : string) (fuel : nat) :
  match t with
  | EmptyString => True
  | String c _ => is_ws c = false /\ c <> "-"%char /\ c <> "+"%char
  end ->
  check_handler fuel pw (String "+" t) other = check_handler fuel pw t other /\
  check_handler fuel pw other (String "+" t) = check_handler fuel pw other t.
Proof.
  intros Ht. unfold check_handler. rewrite (parseInt_plus_sign t Ht). split; reflexivity.
Qed.

Lemma X11_bounds_plus_sign_witness :
  check_handler 11 "7" "+1" "10" = check_handler 11 "7" "1" "10" /\
  check_handler 11 "7" "1" "+10" = check_handler 11 "7" "1" "10".
Proof.
  split.
  - apply (X11_bounds_plus_sign "1" "7" "10" 11). split; [reflexivity|]. split; discriminate.
  - apply (X11_bounds_plus_sign "10" "7" "1" 11). split; [reflexivity|]. split; discriminate.
Defined.

Lemma take_digits_hex_of_dec (t : string) :
  all_dec_digits t = true ->
  take_digits 16 t = map (fun c => Z.of_nat (nat_of_ascii c) - 48) (list_ascii_of_string t).
Proof.
  induction t as [|c r IH]; intros Ht; [reflexivity|].
  cbn [all_dec_digits] in Ht. apply andb_prop in Ht as [Hc Hr].
  cbn [take_digits list_ascii_of_string map].
  assert (Hv : digit_value 16 c = Some (Z.of_nat (nat_of_ascii c) - 48)).
  { unfold is_dec_digit in Hc. apply andb_prop in Hc as [H1 H2].
    apply Nat.leb_le in H1, H2. unfold digit_value.
    replace ((48 <=? Z.of_nat (nat_of_ascii c)) && (Z.of_nat (nat_of_ascii c) <=? 57))
      with true by (symmetry; apply andb_true_intro; split; apply Z.leb_le; lia).
    replace (Z.of_nat (nat_of_ascii c) - 48 <? 16) with true
      by (symmetry; apply Z.ltb_lt; lia).
    reflexivity. }
  rewrite Hv, IH by exact Hr. reflexivity.
Qed.

(** X12.  A bound written "0x" (or "0X") followed by decimal digits is read
    in base 16: its value is the digits taken as hexadecimal digits, so
    "0x10" stands for 16, not 10. *)
Theorem X12_hex_prefix_base16 (t : string) (x : ascii) :
  spec_unsigned_dec t = true -> (x = "x"%char \/ x = "X"%char) ->
  js_parseInt (String "0" (String x t)) =
  round_int (fold_left (fun acc d => acc * 16 + d)
               (map (fun c => Z.of_nat (nat_of_ascii c) - 48) (list_ascii_of_string t)) 0).
Proof.
  intros Ht Hx.
  assert (Hs : parseInt_digits (String "0" (String x t)) = (1, 16, take_digits 16 t))
    by (destruct Hx as [-> | ->]; reflexivity).
  unfold js_parseInt. rewrite Hs.
  destruct t as [|c r]; [discriminate|].
  rewrite take_digits_hex_of_dec by exact Ht.
  cbn [list_ascii_of_string map]. rewrite Z.mul_1_l. reflexivity.
Qed.

Lemma X12_hex_prefix_base16_witness :
  js_parseInt "0x10" = round_int 16 /\ js_parseInt "0X99" = round_int 153.
Proof.
  split.
  - apply (X12_hex_prefix_base16 "10" "x"). reflexivity. left; reflexivity.
  - apply (X12_hex_prefix_base16 "99" "X"). reflexivity. right; reflexivity.
Defined.
